(** * displaylcd: a 16x2 HD44780 display driven through six GPIO lines

    Shallow embedding of [displaylcd.c].  The driver never reads a pin back,
    so its observable behaviour is the sequence of calls it makes to the
    kernel services ([gpio_set_value], [ndelay], [udelay], [mdelay],
    [printk]) together with the levels those calls leave on the six lines
    and the contents of its static variables.  Each C function becomes a
    state transformer over [driver]; the two routines that index an array
    with a run-time value ([lcd_print], [device_write]) return [option],
    [None] standing for an access outside the array. *)

From Stdlib Require Import ZArith List Lia Bool.
From stdpp Require Import base option list.

Local Open Scope Z_scope.

(** ** Pin assignment *)

Definition RS_pin : Z := 10.
Definition EN_pin : Z := 9.
Definition DB4_pin : Z := 6.
Definition DB5_pin : Z := 13.
Definition DB6_pin : Z := 19.
Definition DB7_pin : Z := 26.

(** Indices into the [pins] array ([#define RS 0] ... [#define DB7 5]). *)
Inductive pin_index : Type := RS | EN | DB4 | DB5 | DB6 | DB7.

(** [pins i] is the field [pins[i].gpio]. *)
Definition pins (i : pin_index) : Z :=
  match i with
  | RS => RS_pin
  | EN => EN_pin
  | DB4 => DB4_pin
  | DB5 => DB5_pin
  | DB6 => DB6_pin
  | DB7 => DB7_pin
  end.

(** ** Kernel services and the driver state *)

Inductive kern_level : Type := KERN_INFO | KERN_ERR | KERN_ALERT.

Inductive event : Type :=
| GpioSet (gpio : Z) (value : Z)
| Ndelay (nsecs : Z)
| Udelay (usecs : Z)
| Mdelay (msecs : Z)
| Printk (level : kern_level) (arg : Z).

(** Output levels of the six lines ([true] is high). *)
Record gpio_lines : Type := mkLines {
  rs : bool;
  en : bool;
  db4 : bool;
  db5 : bool;
  db6 : bool;
  db7 : bool
}.

Definition all_low : gpio_lines := mkLines false false false false false false.

(** A nonzero [int] is true in C. *)
Definition c_true (z : Z) : bool := negb (z =? 0).

(** Effect of [gpio_set_value(gpio, value)] on the lines; a gpio number that
    is not one of the six leaves them alone. *)
Definition drive (gpio : Z) (value : Z) (l : gpio_lines) : gpio_lines :=
  let v := c_true value in
  if gpio =? RS_pin then mkLines v (en l) (db4 l) (db5 l) (db6 l) (db7 l)
  else if gpio =? EN_pin then mkLines (rs l) v (db4 l) (db5 l) (db6 l) (db7 l)
  else if gpio =? DB4_pin then mkLines (rs l) (en l) v (db5 l) (db6 l) (db7 l)
  else if gpio =? DB5_pin then mkLines (rs l) (en l) (db4 l) v (db6 l) (db7 l)
  else if gpio =? DB6_pin then mkLines (rs l) (en l) (db4 l) (db5 l) v (db7 l)
  else if gpio =? DB7_pin then mkLines (rs l) (en l) (db4 l) (db5 l) (db6 l) v
  else l.

Record driver : Type := mkDriver {
  lines : gpio_lines;      (* levels currently driven on the six lines *)
  log : list event;        (* kernel services called so far, oldest first *)
  Device_Open : Z;         (* static int Device_Open *)
  minor : Z;               (* static int minor *)
  message : list Z         (* static char message[32] *)
}.

(** The statics as the loader leaves them, before [inicializa] runs. *)
Definition static_init (l : gpio_lines) : driver :=
  mkDriver l [] 0 0 (replicate 32 0).

Definition call (e : event) (st : driver) : driver :=
  mkDriver (lines st) (log st ++ [e]) (Device_Open st) (minor st) (message st).

Definition gpio_set_value (gpio value : Z) (st : driver) : driver :=
  mkDriver (drive gpio value (lines st)) (log st ++ [GpioSet gpio value])
           (Device_Open st) (minor st) (message st).

Definition ndelay (n : Z) : driver -> driver := call (Ndelay n).
Definition udelay (n : Z) : driver -> driver := call (Udelay n).
Definition mdelay (n : Z) : driver -> driver := call (Mdelay n).
Definition printk (level : kern_level) (arg : Z) : driver -> driver :=
  call (Printk level arg).

(** Statement sequencing for routines returning [void]. *)
Definition then_ (f g : driver -> driver) : driver -> driver :=
  fun st => g (f st).

Notation "f >> g" := (then_ f g) (at level 90, right associativity).

(** Conversion to [unsigned char]. *)
Definition uchar (z : Z) : Z := z mod 256.

(** ** Signal transfer *)

Definition lcd_nibble (nibble : Z) : driver -> driver :=
  gpio_set_value (pins EN) 1 >>
  ndelay 150 >>
  (if c_true (Z.land nibble 0x01)
   then gpio_set_value (pins DB4) 1 else gpio_set_value (pins DB4) 0) >>
  (if c_true (Z.land nibble 0x02)
   then gpio_set_value (pins DB5) 1 else gpio_set_value (pins DB5) 0) >>
  (if c_true (Z.land nibble 0x04)
   then gpio_set_value (pins DB6) 1 else gpio_set_value (pins DB6) 0) >>
  (if c_true (Z.land nibble 0x08)
   then gpio_set_value (pins DB7) 1 else gpio_set_value (pins DB7) 0) >>
  ndelay 80 >>
  gpio_set_value (pins EN) 0 >>
  ndelay 10.

Definition lcd_byte (byte : Z) : driver -> driver :=
  lcd_nibble (uchar (Z.shiftr byte 4)) >>
  lcd_nibble byte >>
  udelay 40 >>
  gpio_set_value (pins RS) 1.

(** ** Controller protocol *)

Definition lcd_cls : driver -> driver :=
  gpio_set_value (pins RS) 0 >>
  lcd_byte 0x01 >>
  mdelay 2.

Definition lcd_pos (pos : Z) : driver -> driver :=
  let pos := uchar (pos - 1) in
  let pos := if pos >? 15 then uchar (pos + 48) else pos in
  let pos := uchar (Z.lor pos 0x80) in
  gpio_set_value (pins RS) 0 >>
  lcd_byte pos.

(** The loop [for(x = 0; x < 16; x++)]: [n] iterations remain, [x] is the
    index.  Reading [buffer[x]] outside the array has no result. *)
Fixpoint lcd_print_loop (n : nat) (x : nat) (buffer : list Z) (st : driver)
  : option driver :=
  match n with
  | O => Some st
  | S n' =>
      match buffer !! x with
      | None => None
      | Some c =>
          if c =? 0 then Some st
          else lcd_print_loop n' (S x) buffer (lcd_byte c st)
      end
  end.

Definition lcd_print (buffer : list Z) (st : driver) : option driver :=
  lcd_print_loop 16 0 buffer st.

(** ** File operations *)

Definition EBUSY : Z := 16.

(** [minor_no] is [MINOR(inode->i_rdev)]. *)
Definition device_open (minor_no : Z) (st : driver) : Z * driver :=
  if c_true (Device_Open st) then (- EBUSY, st)
  else (0, mkDriver (lines st) (log st) 1 minor_no (message st)).

Definition device_release (st : driver) : Z * driver :=
  (0, mkDriver (lines st) (log st) 0 (minor st) (message st)).

Definition device_read (st : driver) : Z * driver := (0, st).

(** A store [a[i] = v], defined only inside the array. *)
Definition store (i : nat) (v : Z) (a : list Z) : option (list Z) :=
  if decide (i < length a)%nat then Some (<[i := v]> a) else None.

(** [memcpy(dst, src, n)], byte by byte from index [i] on. *)
Fixpoint memcpy_from (i : nat) (n : nat) (dst src : list Z) : option (list Z) :=
  match n with
  | O => Some dst
  | S n' =>
      match src !! i with
      | None => None
      | Some v =>
          match store i v dst with
          | None => None
          | Some dst' => memcpy_from (S i) n' dst' src
          end
      end
  end.

Definition memcpy (dst src : list Z) (n : nat) : option (list Z) :=
  memcpy_from 0 n dst src.

Definition set_message (m : list Z) (st : driver) : driver :=
  mkDriver (lines st) (log st) (Device_Open st) (minor st) m.

Definition is_digit (c : Z) : bool := (c >=? 48) && (c <=? 57).

Definition device_write (buffer : list Z) (len : nat) (st : driver)
  : option (Z * driver) :=
  let pos := 0 in
  if (30 <? len)%nat then
    Some (Z.of_nat len, printk KERN_INFO (Z.of_nat len) st)
  else if minor st =? 1 then
    Some (Z.of_nat len, lcd_cls st)
  else if minor st =? 2 then
    if (len =? 0)%nat then Some (Z.of_nat len, st)
    else if (len =? 1)%nat then
      match buffer !! 0%nat with
      | None => None
      | Some b0 =>
          if is_digit b0 then
            let pos := uchar (b0 - 48) in
            Some (Z.of_nat len, lcd_pos pos st)
          else Some (Z.of_nat len, st)
      end
    else
      match buffer !! 0%nat, buffer !! 1%nat with
      | Some b0, Some b1 =>
          let pos := 0 in
          let pos := if is_digit b0 then uchar (b0 - 48) else pos in
          let pos :=
            if is_digit b1 then
              let pos := uchar (pos * 10) in
              uchar (pos + b1 - 48)
            else pos in
          if negb (pos =? 0) && (pos <=? 32)
          then Some (Z.of_nat len, lcd_pos pos st)
          else Some (Z.of_nat len, st)
      | _, _ => None
      end
  else if minor st =? 0 then
    match memcpy (message st) buffer len with
    | None => None
    | Some m =>
        match store len 0 m with
        | None => None
        | Some m' =>
            match lcd_print m' (set_message m' st) with
            | None => None
            | Some st' => Some (Z.of_nat len, st')
            end
        end
    end
  else Some (Z.of_nat len, st).

(** ** Module initialisation *)

(** [gpio_request_array] succeeding: the six lines become outputs, all low
    ([GPIOF_OUT_INIT_LOW]). *)
Definition gpio_request_array (st : driver) : driver :=
  mkDriver all_low (log st) (Device_Open st) (minor st) (message st).

(** [ret] is the answer of the kernel to [gpio_request_array]; [line1] and
    [line2] are the module parameters.  Registration of the character device
    and of its three nodes follows the display set-up and is taken to
    succeed. *)
Definition inicializa (ret : Z) (line1 line2 : list Z) (st : driver)
  : option (Z * driver) :=
  if c_true ret then Some (ret, printk KERN_ERR ret st)
  else
    let st :=
      (gpio_request_array >>
       mdelay 15 >>
       lcd_nibble 0x03 >>
       mdelay 5 >>
       lcd_nibble 0x03 >>
       udelay 100 >>
       lcd_nibble 0x03 >>
       udelay 40 >>
       lcd_nibble 0x02 >>
       udelay 40 >>
       lcd_nibble 0x02 >>
       lcd_nibble 0x08 >>
       udelay 40 >>
       lcd_nibble 0x00 >>
       lcd_nibble 0x0C >>
       udelay 40 >>
       lcd_nibble 0x00 >>
       lcd_nibble 0x06 >>
       udelay 40 >>
       lcd_cls) st in
    match lcd_print line1 st with
    | None => None
    | Some st =>
        let st := lcd_pos 17 st in
        match lcd_print line2 st with
        | None => None
        | Some st => Some (0, st)
        end
    end.

(** States the loaded driver can be in between two file operations. *)
Inductive reachable : driver -> Prop :=
| reach_init l line1 line2 st :
    inicializa 0 line1 line2 (static_init l) = Some (0, st) ->
    reachable st
| reach_open minor_no st :
    reachable st -> reachable (snd (device_open minor_no st))
| reach_release st :
    reachable st -> reachable (snd (device_release st))
| reach_read st :
    reachable st -> reachable (snd (device_read st))
| reach_write buffer len st ret st' :
    reachable st ->
    device_write buffer len st = Some (ret, st') ->
    reachable st'.

(** ** What the controller sees *)

Inductive mode : Type := Command | Character.

Definition mode_of (l : gpio_lines) : mode :=
  if rs l then Character else Command.

(** Value on DB7..DB4, DB4 being the least significant bit. *)
Definition data_nibble (l : gpio_lines) : Z :=
  Z.b2z (db4 l) + 2 * Z.b2z (db5 l) + 4 * Z.b2z (db6 l) + 8 * Z.b2z (db7 l).

Definition step_lines (e : event) (l : gpio_lines) : gpio_lines :=
  match e with
  | GpioSet gpio value => drive gpio value l
  | _ => l
  end.

Definition replay (evs : list event) (l : gpio_lines) : gpio_lines :=
  fold_left (fun l e => step_lines e l) evs l.

(** The HD44780 latches RS and the data lines on each falling edge of EN. *)
Fixpoint latched (l : gpio_lines) (evs : list event) : list (mode * Z) :=
  match evs with
  | [] => []
  | e :: evs' =>
      let l' := step_lines e l in
      if en l && negb (en l')
      then (mode_of l, data_nibble l) :: latched l' evs'
      else latched l' evs'
  end.

(** In 4-bit operation two latched nibbles make one transfer, high nibble
    first; the transfer is tagged with the mode seen at its first nibble. *)
Fixpoint transfers (ns : list (mode * Z)) : list (mode * Z) :=
  match ns with
  | (m, hi) :: (_, lo) :: rest => (m, 16 * hi + lo) :: transfers rest
  | _ => []
  end.

(** Kernel services called between two states of one run. *)
Definition issued (st st' : driver) : list event :=
  drop (length (log st)) (log st').

Definition received (st st' : driver) : list (mode * Z) :=
  transfers (latched (lines st) (issued st st')).

Definition is_gpio_set (e : event) : bool :=
  match e with
  | GpioSet _ _ => true
  | _ => false
  end.

Definition gpio_of (e : event) : option Z :=
  match e with
  | GpioSet gpio _ => Some gpio
  | _ => None
  end.

(** The gpio numbers written between two states, in order. *)
Definition written_gpios (st st' : driver) : list Z :=
  omap gpio_of (issued st st').

(** The state reached by issuing [evs] and changing nothing else. *)
Definition advance (evs : list event) (st : driver) : driver :=
  mkDriver (replay evs (lines st)) (log st ++ evs)
           (Device_Open st) (minor st) (message st).

(** [c] issues exactly [evs], whatever the state it starts in. *)
Definition performs (c : driver -> driver) (evs : list event) : Prop :=
  forall st, c st = advance evs st.

Definition bit (n : Z) (i : Z) : Z := Z.b2z (Z.testbit n i).

(** Calls made by one nibble transfer. *)
Definition nibble_trace (nibble : Z) : list event :=
  [ GpioSet EN_pin 1; Ndelay 150;
    GpioSet DB4_pin (bit nibble 0); GpioSet DB5_pin (bit nibble 1);
    GpioSet DB6_pin (bit nibble 2); GpioSet DB7_pin (bit nibble 3);
    Ndelay 80; GpioSet EN_pin 0; Ndelay 10 ].

(** Calls made by one byte transfer. *)
Definition byte_trace (byte : Z) : list event :=
  nibble_trace (Z.shiftr byte 4) ++ nibble_trace byte ++
  [ Udelay 40; GpioSet RS_pin 1 ].

(** The byte sent by [lcd_pos]. *)
Definition pos_command (pos : Z) : Z :=
  let a := uchar (pos - 1) in
  let a := if a >? 15 then uchar (a + 48) else a in
  uchar (Z.lor a 0x80).

(** ** Reading of the position channel *)

Definition digit (c : Z) : Z := if is_digit c then c - 48 else 0.

(** The value as the specification words it. *)
Definition claimed_value (b0 b1 : Z) : Z := digit b0 * 10 + digit b1.

(** The value the dispatcher computes from the first two bytes. *)
Definition position_value (b0 b1 : Z) : Z :=
  if is_digit b1 then digit b0 * 10 + digit b1 else digit b0.

(** The bytes of [text] before its first zero byte. *)
Fixpoint before_zero (text : list Z) : list Z :=
  match text with
  | [] => []
  | c :: rest => if c =? 0 then [] else c :: before_zero rest
  end.

(** [lcd_byte] on each byte in turn. *)
Definition send_all (bytes : list Z) (st : driver) : driver :=
  fold_left (fun st c => lcd_byte c st) bytes st.

(** Calls made by sending each byte of a text in turn. *)
Definition text_trace (bytes : list Z) : list event :=
  flat_map byte_trace bytes.

(** The position channel on two or more bytes, as the specification words
    it: the value is [claimed_value] of the first two bytes. *)
Definition claimed_position_write (b0 b1 : Z) (len : nat) (st : driver)
  : option (Z * driver) :=
  let value := claimed_value b0 b1 in
  if (0 <? value) && (value <=? 32)
  then Some (Z.of_nat len, lcd_pos value st)
  else Some (Z.of_nat len, st).

(** [set_cursor] as the specification words it: positions outside 1..32 are
    ignored. *)
Definition claimed_set_cursor (p : Z) (st : driver) : driver :=
  if (1 <=? p) && (p <=? 32) then lcd_pos p st else st.

Definition character_mode (st : driver) : Prop :=
  mode_of (lines st) = Character.

(** What holds of the statics and the lines between two file operations. *)
Definition idle (st : driver) : Prop :=
  character_mode st /\ en (lines st) = false /\ length (message st) = 32%nat.

(** Default values of the module parameters [line1] and [line2], with the
    terminator of the string literal. *)
Definition default_line1 : list Z :=
  [32; 82; 97; 115; 112; 98; 101; 114; 114; 121; 32; 80; 105; 32; 51; 32; 0].
Definition default_line2 : list Z :=
  [32; 32; 76; 67; 68; 32; 32; 68; 105; 115; 112; 108; 97; 121; 32; 32; 0].

(** The driver right after a successful load with the default texts. *)
Definition loaded : driver :=
  match inicializa 0 default_line1 default_line2 (static_init all_low) with
  | Some (_, st) => st
  | None => static_init all_low
  end.

(** The same with one of the three device nodes opened. *)
Definition opened (minor_no : Z) : driver := snd (device_open minor_no loaded).

(** ** Measures over traces *)

(** The two nibbles of one byte as the controller latches them. *)
Definition nibbles_of (m : mode) (byte : Z) : list (mode * Z) :=
  [(m, Z.shiftr byte 4 mod 16); (m, byte mod 16)].

(** Time spent in one busy wait, in nanoseconds. *)
Definition delay_ns (e : event) : Z :=
  match e with
  | Ndelay n => n
  | Udelay n => 1000 * n
  | Mdelay n => 1000000 * n
  | _ => 0
  end.

Definition busy_ns (evs : list event) : Z :=
  fold_right (fun e t => delay_ns e + t) 0 evs.

(** The gpio numbers of the [pins] array. *)
Definition pin_table : list Z := map pins [RS; EN; DB4; DB5; DB6; DB7].

(** Calls made by [lcd_cls] and by [lcd_pos]. *)
Definition cls_trace : list event :=
  GpioSet RS_pin 0 :: byte_trace 0x01 ++ [Mdelay 2].

Definition pos_trace (pos : Z) : list event :=
  GpioSet RS_pin 0 :: byte_trace (pos_command pos).

(** The kernel services one [device_write] of [len] bytes can call. *)
Inductive write_shape (len : nat) : list event -> Prop :=
| shape_rejected : write_shape len [Printk KERN_INFO (Z.of_nat len)]
| shape_nothing : write_shape len []
| shape_cls : write_shape len cls_trace
| shape_pos pos : write_shape len (pos_trace pos)
| shape_text bytes :
    (length bytes <= 16)%nat -> write_shape len (text_trace bytes).

(** Calls made by the display set-up of [inicializa], up to and including
    its [lcd_cls]. *)
Definition init_trace : list event :=
  [Mdelay 15] ++ nibble_trace 0x03 ++ [Mdelay 5] ++ nibble_trace 0x03 ++
  [Udelay 100] ++ nibble_trace 0x03 ++ [Udelay 40] ++ nibble_trace 0x02 ++
  [Udelay 40] ++ nibble_trace 0x02 ++ nibble_trace 0x08 ++ [Udelay 40] ++
  nibble_trace 0x00 ++ nibble_trace 0x0C ++ [Udelay 40] ++
  nibble_trace 0x00 ++ nibble_trace 0x06 ++ [Udelay 40] ++ cls_trace.

(** The position 1..32 addressed by a set-address command byte: addresses
    from 0x40 on belong to the second line. *)
Definition ddram_position (command : Z) : Z :=
  let a := command - 0x80 in
  if a <? 0x40 then a + 1 else a - 0x40 + 17.

(** * Properties *)

(** ** Bits of a nibble *)

Lemma c_true_b2z (b : bool) : c_true (Z.b2z b) = b.
Proof. by destruct b. Qed.

Lemma land_pow2 (n i : Z) :
  0 <= i -> Z.land n (2 ^ i) = if Z.testbit n i then 2 ^ i else 0.
Proof.
  intros Hi. apply Z.bits_inj'. intros j Hj.
  rewrite Z.land_spec, Z.pow2_bits_eqb by lia.
  destruct (Z.eqb_spec i j) as [->|Hne].
  - rewrite andb_true_r. destruct (Z.testbit n j) eqn:E.
    + by rewrite Z.pow2_bits_true.
    + by rewrite Z.bits_0.
  - rewrite andb_false_r. destruct (Z.testbit n i).
    + by rewrite Z.pow2_bits_false.
    + by rewrite Z.bits_0.
Qed.

Lemma mask_test (n i : Z) : 0 <= i -> c_true (Z.land n (2 ^ i)) = Z.testbit n i.
Proof.
  intros Hi. rewrite land_pow2 by done. unfold c_true.
  destruct (Z.testbit n i); [|done].
  destruct (Z.eqb_spec (2 ^ i) 0) as [E|_]; [|done].
  pose proof (Z.pow_pos_nonneg 2 i). lia.
Qed.

(** The conditional expressions of [lcd_nibble] drive a line to one bit. *)
Lemma select_bit (gpio n i : Z) :
  0 <= i ->
  (if c_true (Z.land n (2 ^ i))
   then gpio_set_value gpio 1 else gpio_set_value gpio 0)
  = gpio_set_value gpio (bit n i).
Proof.
  intros Hi. rewrite mask_test by done. unfold bit.
  by destruct (Z.testbit n i).
Qed.

Lemma low_nibble_bits (n : Z) :
  bit n 0 + 2 * bit n 1 + 4 * bit n 2 + 8 * bit n 3 = n mod 16.
Proof.
  unfold bit. rewrite !Z.testbit_spec' by lia.
  change (2 ^ 0) with 1. change (2 ^ 1) with 2.
  change (2 ^ 2) with 4. change (2 ^ 3) with 8.
  Z.div_mod_to_equations. lia.
Qed.

Lemma bit_uchar (n i : Z) : 0 <= i < 8 -> bit (uchar n) i = bit n i.
Proof.
  intros Hi. unfold bit, uchar. change 256 with (2 ^ 8).
  by rewrite Z.mod_pow2_bits_low by lia.
Qed.

Lemma bit_mod16 (n i : Z) : 0 <= i < 4 -> bit (n mod 16) i = bit n i.
Proof.
  intros Hi. unfold bit. change 16 with (2 ^ 4).
  by rewrite Z.mod_pow2_bits_low by lia.
Qed.

Lemma nibble_trace_uchar (n : Z) : nibble_trace (uchar n) = nibble_trace n.
Proof. unfold nibble_trace. by rewrite !bit_uchar by lia. Qed.

Lemma nibble_trace_mod16 (n : Z) : nibble_trace (n mod 16) = nibble_trace n.
Proof. unfold nibble_trace. by rewrite !bit_mod16 by lia. Qed.

(** ** Traces *)

Lemma replay_app (a b : list event) (l : gpio_lines) :
  replay (a ++ b) l = replay b (replay a l).
Proof. unfold replay. apply fold_left_app. Qed.

Lemma advance_nil (st : driver) : advance [] st = st.
Proof. destruct st. unfold advance. simpl. by rewrite app_nil_r. Qed.

Lemma advance_app (a b : list event) (st : driver) :
  advance (a ++ b) st = advance b (advance a st).
Proof. unfold advance. simpl. by rewrite replay_app, app_assoc. Qed.

Lemma issued_advance (evs : list event) (st : driver) :
  issued st (advance evs st) = evs.
Proof. unfold issued, advance. simpl. by rewrite drop_app_length. Qed.

Lemma issued_refl (st : driver) : issued st st = [].
Proof. unfold issued. by rewrite drop_all. Qed.

Lemma performs_call (e : event) :
  is_gpio_set e = false -> performs (call e) [e].
Proof. intros He st. by destruct e. Qed.

Lemma performs_ndelay (n : Z) : performs (ndelay n) [Ndelay n].
Proof. by apply performs_call. Qed.

Lemma performs_udelay (n : Z) : performs (udelay n) [Udelay n].
Proof. by apply performs_call. Qed.

Lemma performs_mdelay (n : Z) : performs (mdelay n) [Mdelay n].
Proof. by apply performs_call. Qed.

Lemma performs_printk (level : kern_level) (arg : Z) :
  performs (printk level arg) [Printk level arg].
Proof. by apply performs_call. Qed.

Lemma performs_gpio (gpio value : Z) :
  performs (gpio_set_value gpio value) [GpioSet gpio value].
Proof. by intros st. Qed.

Lemma performs_then (c1 c2 : driver -> driver) (e1 e2 : list event) :
  performs c1 e1 -> performs c2 e2 -> performs (c1 >> c2) (e1 ++ e2).
Proof.
  intros H1 H2 st. unfold then_. by rewrite H1, H2, advance_app.
Qed.

Lemma performs_nibble (nibble : Z) :
  performs (lcd_nibble nibble) (nibble_trace nibble).
Proof.
  unfold lcd_nibble.
  rewrite (select_bit _ nibble 0), (select_bit _ nibble 1),
    (select_bit _ nibble 2), (select_bit _ nibble 3) by lia.
  repeat (apply (performs_then _ _ [_]);
          [first [apply performs_gpio | apply performs_ndelay]|]).
  apply performs_ndelay.
Qed.

Lemma performs_byte (byte : Z) : performs (lcd_byte byte) (byte_trace byte).
Proof.
  unfold lcd_byte, byte_trace.
  apply performs_then; [rewrite <- nibble_trace_uchar; apply performs_nibble|].
  apply performs_then; [apply performs_nibble|].
  apply (performs_then _ _ [_]); [apply performs_udelay | apply performs_gpio].
Qed.

Lemma performs_cls :
  performs lcd_cls (GpioSet RS_pin 0 :: byte_trace 0x01 ++ [Mdelay 2]).
Proof.
  unfold lcd_cls.
  apply (performs_then _ _ [_]); [apply performs_gpio|].
  apply performs_then; [apply performs_byte | apply performs_mdelay].
Qed.

Lemma performs_pos (pos : Z) :
  performs (lcd_pos pos) (GpioSet RS_pin 0 :: byte_trace (pos_command pos)).
Proof.
  unfold lcd_pos.
  apply (performs_then _ _ [_]); [apply performs_gpio | apply performs_byte].
Qed.

(** ** The controller's view of a trace *)

Lemma latched_app (a b : list event) (l : gpio_lines) :
  latched l (a ++ b) = latched l a ++ latched (replay a l) b.
Proof.
  revert l. induction a as [|e a IH]; intros l; [done|].
  simpl. rewrite IH. by destruct (en l && negb (en (step_lines e l))).
Qed.

Lemma drive_rs (v : Z) (r e a b c d : bool) :
  drive RS_pin v (mkLines r e a b c d) = mkLines (c_true v) e a b c d.
Proof. reflexivity. Qed.

Lemma drive_en (v : Z) (r e a b c d : bool) :
  drive EN_pin v (mkLines r e a b c d) = mkLines r (c_true v) a b c d.
Proof. reflexivity. Qed.

Lemma drive_db4 (v : Z) (r e a b c d : bool) :
  drive DB4_pin v (mkLines r e a b c d) = mkLines r e (c_true v) b c d.
Proof. reflexivity. Qed.

Lemma drive_db5 (v : Z) (r e a b c d : bool) :
  drive DB5_pin v (mkLines r e a b c d) = mkLines r e a (c_true v) c d.
Proof. reflexivity. Qed.

Lemma drive_db6 (v : Z) (r e a b c d : bool) :
  drive DB6_pin v (mkLines r e a b c d) = mkLines r e a b (c_true v) d.
Proof. reflexivity. Qed.

Lemma drive_db7 (v : Z) (r e a b c d : bool) :
  drive DB7_pin v (mkLines r e a b c d) = mkLines r e a b c (c_true v).
Proof. reflexivity. Qed.

Lemma replay_nibble (n : Z) (l : gpio_lines) :
  replay (nibble_trace n) l
  = mkLines (rs l) false (Z.testbit n 0) (Z.testbit n 1)
            (Z.testbit n 2) (Z.testbit n 3).
Proof.
  destruct l as [r e d4 d5 d6 d7]. unfold nibble_trace, replay.
  cbn [fold_left step_lines rs].
  rewrite drive_en, drive_db4, drive_db5, drive_db6, drive_db7, drive_en.
  unfold bit. by rewrite !c_true_b2z.
Qed.

Lemma latched_quiet (e : event) (evs : list event) (l : gpio_lines) :
  en (step_lines e l) = en l ->
  latched l (e :: evs) = latched (step_lines e l) evs.
Proof.
  intros H. cbn [latched]. rewrite H. by destruct (en l).
Qed.

(** One event that leaves EN as it is: nothing is latched. *)
Ltac quiet_step :=
  rewrite latched_quiet by done; cbn [step_lines];
  rewrite ?drive_db4, ?drive_db5, ?drive_db6, ?drive_db7.

Lemma latched_rise (v : Z) (evs : list event) (r e a b c d : bool) :
  c_true v = true ->
  latched (mkLines r e a b c d) (GpioSet EN_pin v :: evs)
  = latched (mkLines r true a b c d) evs.
Proof.
  intros H. cbn [latched step_lines]. rewrite drive_en, H. cbn [en negb].
  by rewrite andb_false_r.
Qed.

Lemma latched_fall (v : Z) (evs : list event) (r a b c d : bool) :
  c_true v = false ->
  latched (mkLines r true a b c d) (GpioSet EN_pin v :: evs)
  = (mode_of (mkLines r true a b c d), data_nibble (mkLines r true a b c d))
    :: latched (mkLines r false a b c d) evs.
Proof.
  intros H. cbn [latched step_lines]. by rewrite drive_en, H.
Qed.

Lemma latched_nibble (n : Z) (l : gpio_lines) :
  latched l (nibble_trace n) = [(mode_of l, n mod 16)].
Proof.
  rewrite <- low_nibble_bits.
  destruct l as [r e d4 d5 d6 d7]. unfold nibble_trace.
  rewrite latched_rise by done.
  do 6 quiet_step.
  rewrite latched_fall by done.
  quiet_step. cbn [latched].
  unfold bit, data_nibble, mode_of. cbn [rs db4 db5 db6 db7].
  by rewrite !c_true_b2z.
Qed.

Lemma replay_byte (byte : Z) (l : gpio_lines) :
  replay (byte_trace byte) l
  = mkLines true false (Z.testbit byte 0) (Z.testbit byte 1)
            (Z.testbit byte 2) (Z.testbit byte 3).
Proof.
  unfold byte_trace. rewrite !replay_app, !replay_nibble. reflexivity.
Qed.

Lemma latched_byte (byte : Z) (l : gpio_lines) :
  latched l (byte_trace byte)
  = [(mode_of l, Z.shiftr byte 4 mod 16); (mode_of l, byte mod 16)].
Proof.
  unfold byte_trace. rewrite !latched_app, !latched_nibble, !replay_nibble.
  destruct l as [r e d4 d5 d6 d7]. simpl. reflexivity.
Qed.

(** High nibble first, then low nibble, reassemble the byte. *)
Lemma nibbles_join (byte : Z) :
  16 * (Z.shiftr byte 4 mod 16) + byte mod 16 = uchar byte.
Proof.
  unfold uchar. rewrite Z.shiftr_div_pow2 by lia. change (2 ^ 4) with 16.
  Z.div_mod_to_equations. lia.
Qed.

Lemma uchar_range (z : Z) : 0 <= uchar z < 256.
Proof. unfold uchar. apply Z.mod_pos_bound. lia. Qed.

Lemma uchar_small (z : Z) : 0 <= z < 256 -> uchar z = z.
Proof. intros Hz. unfold uchar. by rewrite Z.mod_small. Qed.

Lemma transfers_byte (byte : Z) (l : gpio_lines) :
  transfers (latched l (byte_trace byte)) = [(mode_of l, uchar byte)].
Proof. rewrite latched_byte. simpl. by rewrite nibbles_join. Qed.

Lemma received_performs (c : driver -> driver) (evs : list event) (st : driver) :
  performs c evs -> received st (c st) = transfers (latched (lines st) evs).
Proof. intros H. unfold received. by rewrite H, issued_advance. Qed.

Lemma issued_performs (c : driver -> driver) (evs : list event) (st : driver) :
  performs c evs -> issued st (c st) = evs.
Proof. intros H. by rewrite H, issued_advance. Qed.

Lemma lines_performs (c : driver -> driver) (evs : list event) (st : driver) :
  performs c evs -> lines (c st) = replay evs (lines st).
Proof. intros H. by rewrite H. Qed.

Lemma pos_command_range (pos : Z) : 0 <= pos_command pos < 256.
Proof. apply uchar_range. Qed.

Lemma received_byte (byte : Z) (st : driver) :
  received st (lcd_byte byte st) = [(mode_of (lines st), uchar byte)].
Proof.
  rewrite (received_performs _ _ _ (performs_byte byte)).
  apply transfers_byte.
Qed.

Lemma latched_command_byte (byte : Z) (l : gpio_lines) :
  latched l (GpioSet RS_pin 0 :: byte_trace byte)
  = [(Command, Z.shiftr byte 4 mod 16); (Command, byte mod 16)].
Proof.
  destruct l as [r e d4 d5 d6 d7].
  rewrite latched_quiet by done. cbn [step_lines]. rewrite drive_rs.
  apply latched_byte.
Qed.

Lemma latched_then_delay (evs : list event) (n : Z) (l : gpio_lines) :
  latched l (evs ++ [Mdelay n]) = latched l evs.
Proof.
  rewrite latched_app, latched_quiet by done. cbn [latched].
  apply app_nil_r.
Qed.

Lemma latched_cls (l : gpio_lines) :
  latched l (GpioSet RS_pin 0 :: byte_trace 0x01 ++ [Mdelay 2])
  = [(Command, 0); (Command, 1)].
Proof.
  change (GpioSet RS_pin 0 :: byte_trace 1 ++ [Mdelay 2])
    with ((GpioSet RS_pin 0 :: byte_trace 1) ++ [Mdelay 2]).
  by rewrite latched_then_delay, latched_command_byte.
Qed.

Lemma received_cls (st : driver) :
  received st (lcd_cls st) = [(Command, 0x01)].
Proof.
  by rewrite (received_performs _ _ _ performs_cls), latched_cls.
Qed.

Lemma received_pos (pos : Z) (st : driver) :
  received st (lcd_pos pos st) = [(Command, pos_command pos)].
Proof.
  rewrite (received_performs _ _ _ (performs_pos pos)), latched_command_byte.
  cbn [transfers]. rewrite nibbles_join.
  by rewrite (uchar_small _ (pos_command_range pos)).
Qed.

Lemma mode_after_byte (byte : Z) (st : driver) :
  mode_of (lines (lcd_byte byte st)) = Character.
Proof. by rewrite (lines_performs _ _ _ (performs_byte byte)), replay_byte. Qed.

Lemma mode_after_cls (st : driver) : mode_of (lines (lcd_cls st)) = Character.
Proof.
  rewrite (lines_performs _ _ _ performs_cls).
  change (GpioSet RS_pin 0 :: byte_trace 1 ++ [Mdelay 2])
    with ([GpioSet RS_pin 0] ++ byte_trace 1 ++ [Mdelay 2]).
  by rewrite !replay_app, replay_byte.
Qed.

Lemma mode_after_pos (pos : Z) (st : driver) :
  mode_of (lines (lcd_pos pos st)) = Character.
Proof.
  rewrite (lines_performs _ _ _ (performs_pos pos)).
  change (GpioSet RS_pin 0 :: byte_trace (pos_command pos))
    with ([GpioSet RS_pin 0] ++ byte_trace (pos_command pos)).
  by rewrite !replay_app, replay_byte.
Qed.

(** ** Printing *)

Lemma performs_send_all (bytes : list Z) :
  performs (send_all bytes) (text_trace bytes).
Proof.
  induction bytes as [|c cs IH]; intros st.
  - by rewrite advance_nil.
  - change (send_all (c :: cs) st) with (send_all cs (lcd_byte c st)).
    change (text_trace (c :: cs)) with (byte_trace c ++ text_trace cs).
    by rewrite IH, performs_byte, advance_app.
Qed.

Lemma transfers_text (bytes : list Z) (l : gpio_lines) :
  transfers (latched l (text_trace bytes))
  = match bytes with
    | [] => []
    | c :: cs => (mode_of l, uchar c) :: map (fun c => (Character, uchar c)) cs
    end.
Proof.
  revert l. induction bytes as [|c cs IH]; intros l; [done|].
  change (text_trace (c :: cs)) with (byte_trace c ++ text_trace cs).
  rewrite latched_app, latched_byte. cbn [app transfers].
  rewrite nibbles_join. f_equal.
  rewrite IH. destruct cs as [|c' cs']; [done|]. by rewrite replay_byte.
Qed.

Lemma received_send_all (bytes : list Z) (st : driver) :
  map snd (received st (send_all bytes st)) = map uchar bytes.
Proof.
  rewrite (received_performs _ _ _ (performs_send_all bytes)), transfers_text.
  destruct bytes as [|c cs]; [done|]. simpl. f_equal.
  rewrite map_map. by apply map_ext.
Qed.

Lemma mode_after_send_all (bytes : list Z) (st : driver) :
  character_mode st \/ bytes <> [] -> character_mode (send_all bytes st).
Proof.
  revert st. induction bytes as [|c cs IH]; intros st H.
  - by destruct H.
  - change (send_all (c :: cs) st) with (send_all cs (lcd_byte c st)).
    apply IH. left. apply mode_after_byte.
Qed.

Lemma lcd_print_loop_sent (n x : nat) (buffer : list Z) (st st' : driver) :
  lcd_print_loop n x buffer st = Some st' ->
  st' = send_all (take n (before_zero (drop x buffer))) st.
Proof.
  revert x st. induction n as [|n IH]; intros x st H; simpl in H.
  - by inversion H.
  - destruct (buffer !! x) as [c|] eqn:E; [|done].
    rewrite (drop_S _ _ _ E). simpl.
    destruct (c =? 0); [by inversion H|].
    simpl. by apply IH.
Qed.

Lemma lcd_print_loop_defined (n x : nat) (buffer : list Z) (st : driver) :
  0 ∈ drop x buffer \/ (n <= length (drop x buffer))%nat ->
  is_Some (lcd_print_loop n x buffer st).
Proof.
  revert x st. induction n as [|n IH]; intros x st H; simpl; [by eexists|].
  destruct (buffer !! x) as [c|] eqn:E.
  - rewrite (drop_S _ _ _ E) in H.
    destruct (Z.eqb_spec c 0) as [->|Hc]; [by eexists|].
    apply IH. destruct H as [H|H].
    + left. apply elem_of_cons in H as [H|H]; [congruence|done].
    + right. simpl in H. lia.
  - apply lookup_ge_None in E. rewrite (drop_ge _ _ E) in H.
    destruct H as [H|H]; [by apply elem_of_nil in H | simpl in H; lia].
Qed.

Lemma lcd_print_sent (buffer : list Z) (st : driver) :
  0 ∈ buffer \/ (16 <= length buffer)%nat ->
  lcd_print buffer st = Some (send_all (take 16 (before_zero buffer)) st).
Proof.
  intros H. unfold lcd_print.
  destruct (lcd_print_loop_defined 16 0 buffer st H) as [st' E].
  rewrite E. f_equal. by apply lcd_print_loop_sent in E.
Qed.

Lemma before_zero_no_zero (text : list Z) : 0 ∉ text -> before_zero text = text.
Proof.
  induction text as [|c cs IH]; intros H; [done|]. simpl.
  destruct (Z.eqb_spec c 0) as [->|_].
  - exfalso. apply H. by left.
  - f_equal. apply IH. intros Hin. apply H. by right.
Qed.

(** ** Copying into the message buffer *)

Lemma store_ok (i : nat) (v : Z) (a : list Z) :
  (i < length a)%nat -> store i v a = Some (<[i := v]> a).
Proof. intros H. unfold store. by rewrite decide_True. Qed.

Lemma memcpy_from_ok (i n : nat) (dst src : list Z) :
  (i + n <= length src)%nat -> (i + n <= length dst)%nat ->
  memcpy_from i n dst src
  = Some (take i dst ++ take n (drop i src) ++ drop (i + n) dst).
Proof.
  revert i dst. induction n as [|n IH]; intros i dst Hs Hd; simpl.
  - by rewrite Nat.add_0_r, take_drop.
  - destruct (lookup_lt_is_Some_2 src i) as [v E]; [lia|].
    rewrite E, store_ok by lia.
    rewrite IH by (rewrite ?length_insert; lia).
    f_equal. rewrite (take_S_r _ _ v).
    + rewrite take_insert_ge by lia.
      rewrite drop_insert_lt by lia.
      rewrite (drop_S _ _ _ E). simpl.
      rewrite <- app_assoc. simpl. by rewrite Nat.add_succ_r.
    + apply list_lookup_insert_eq. lia.
Qed.

Lemma memcpy_ok (dst src : list Z) (n : nat) :
  (n <= length src)%nat -> (n <= length dst)%nat ->
  memcpy dst src n = Some (take n src ++ drop n dst).
Proof. intros Hs Hd. unfold memcpy. by rewrite memcpy_from_ok. Qed.

Lemma store_length (i : nat) (v : Z) (a a' : list Z) :
  store i v a = Some a' -> length a' = length a.
Proof.
  unfold store. destruct (decide (i < length a)%nat); [|done].
  intros [= <-]. apply length_insert.
Qed.

Lemma memcpy_from_length (i n : nat) (dst src m : list Z) :
  memcpy_from i n dst src = Some m -> length m = length dst.
Proof.
  revert i dst. induction n as [|n IH]; intros i dst H; simpl in H.
  - by inversion H.
  - destruct (src !! i) as [v|]; [|done].
    destruct (store i v dst) as [dst'|] eqn:E; [|done].
    rewrite (IH _ _ H). by apply store_length in E.
Qed.

(** ** The idle invariant *)

Lemma replay_command_byte (byte : Z) (l : gpio_lines) :
  replay (GpioSet RS_pin 0 :: byte_trace byte) l
  = mkLines true false (Z.testbit byte 0) (Z.testbit byte 1)
            (Z.testbit byte 2) (Z.testbit byte 3).
Proof.
  change (GpioSet RS_pin 0 :: byte_trace byte)
    with ([GpioSet RS_pin 0] ++ byte_trace byte).
  by rewrite replay_app, replay_byte.
Qed.

Lemma idle_byte (byte : Z) (st : driver) :
  length (message st) = 32%nat -> idle (lcd_byte byte st).
Proof.
  intros H. rewrite performs_byte. unfold idle, character_mode, advance.
  cbn [lines message]. by rewrite replay_byte.
Qed.

Lemma idle_cls (st : driver) :
  length (message st) = 32%nat -> idle (lcd_cls st).
Proof.
  intros H. rewrite performs_cls. unfold idle, character_mode, advance.
  cbn [lines message].
  change (GpioSet RS_pin 0 :: byte_trace 1 ++ [Mdelay 2])
    with ((GpioSet RS_pin 0 :: byte_trace 1) ++ [Mdelay 2]).
  by rewrite replay_app, replay_command_byte.
Qed.

Lemma idle_pos (pos : Z) (st : driver) :
  length (message st) = 32%nat -> idle (lcd_pos pos st).
Proof.
  intros H. rewrite performs_pos. unfold idle, character_mode, advance.
  cbn [lines message]. by rewrite replay_command_byte.
Qed.

Lemma idle_send_all (bytes : list Z) (st : driver) :
  idle st -> idle (send_all bytes st).
Proof.
  revert st. induction bytes as [|c cs IH]; intros st H; [done|].
  change (send_all (c :: cs) st) with (send_all cs (lcd_byte c st)).
  apply IH, idle_byte, H.
Qed.

Lemma idle_print (buffer : list Z) (st st' : driver) :
  idle st -> lcd_print buffer st = Some st' -> idle st'.
Proof.
  intros Hst H. apply lcd_print_loop_sent in H as ->.
  by apply idle_send_all.
Qed.

Lemma idle_set_message (m : list Z) (st : driver) :
  idle st -> length m = 32%nat -> idle (set_message m st).
Proof. intros (Hm & He & _) Hl. by repeat split. Qed.

Lemma idle_write (buffer : list Z) (len : nat) (st st' : driver) (ret : Z) :
  idle st -> device_write buffer len st = Some (ret, st') -> idle st'.
Proof.
  intros Hst H. pose proof Hst as (Hm & He & Hl).
  unfold device_write in H.
  destruct (30 <? len)%nat; [by inversion H; subst|].
  destruct (minor st =? 1); [inversion H; subst; by apply idle_cls|].
  destruct (minor st =? 2).
  - destruct (len =? 0)%nat; [by inversion H; subst|].
    destruct (len =? 1)%nat.
    + destruct (buffer !! 0%nat) as [b0|]; [|done].
      destruct (is_digit b0); inversion H; subst; [by apply idle_pos|done].
    + destruct (buffer !! 0%nat) as [b0|]; [|done].
      destruct (buffer !! 1%nat) as [b1|]; [|done].
      match type of H with
      | (if ?c then _ else _) = _ => destruct c
      end; inversion H; subst; [by apply idle_pos|done].
  - destruct (minor st =? 0); [|by inversion H; subst].
    destruct (memcpy (message st) buffer len) as [m|] eqn:Em; [|done].
    destruct (store len 0 m) as [m'|] eqn:Es; [|done].
    destruct (lcd_print m' (set_message m' st)) as [st2|] eqn:Ep; [|done].
    inversion H; subst. apply (idle_print _ _ _ (idle_set_message m' st Hst
      ltac:(rewrite (store_length _ _ _ _ Es); unfold memcpy in Em;
            by rewrite (memcpy_from_length _ _ _ _ _ Em))) Ep).
Qed.

Lemma idle_init (l : gpio_lines) (line1 line2 : list Z) (st : driver) (ret : Z) :
  inicializa 0 line1 line2 (static_init l) = Some (ret, st) -> idle st.
Proof.
  unfold inicializa. simpl c_true. cbv iota.
  set (st1 := then_ _ _ _).
  assert (H1 : idle st1) by (apply idle_cls; reflexivity).
  destruct (lcd_print line1 st1) as [st2|] eqn:E2; [|done].
  assert (H2 : idle st2) by apply (idle_print _ _ _ H1 E2).
  destruct (lcd_print line2 (lcd_pos 17 st2)) as [st3|] eqn:E3; [|done].
  intros [= <- <-]. apply (idle_print _ _ _ (idle_pos 17 st2 (proj2 (proj2 H2))) E3).
Qed.

Lemma reachable_idle (st : driver) : reachable st -> idle st.
Proof.
  induction 1 as [l line1 line2 st H|m st _ IH|st _ IH|st _ IH
                 |buffer len st ret st' _ IH H].
  - by apply idle_init in H.
  - unfold device_open. by destruct (c_true (Device_Open st)).
  - done.
  - done.
  - by apply idle_write in H.
Qed.

(** ** Cursor addressing *)

Lemma lor_0x80 (a : Z) :
  0 <= a < 256 -> Z.lor a 0x80 = if a <? 128 then a + 128 else a.
Proof.
  intros Ha. pose proof (Z.add_lor_land a 128) as E.
  pose proof (land_pow2 a 7 ltac:(lia)) as L.
  pose proof (Z.testbit_spec' a 7 ltac:(lia)) as T.
  change (2 ^ 7) with 128 in *. rewrite L in E.
  destruct (Z.testbit a 7), (Z.ltb_spec a 128); simpl in T;
    revert T; Z.div_mod_to_equations; lia.
Qed.

Lemma pos_command_valid (p : Z) :
  1 <= p <= 32 ->
  pos_command p = Z.lor (if p - 1 >=? 16 then (p - 1) + 48 else p - 1) 0x80.
Proof.
  intros Hp. unfold pos_command. rewrite (uchar_small (p - 1)) by lia.
  destruct (Z.gtb_spec (p - 1) 15), (Z.geb_spec (p - 1) 16); try lia.
  - rewrite (uchar_small (p - 1 + 48)) by lia.
    apply uchar_small. rewrite lor_0x80 by lia.
    destruct (Z.ltb_spec (p - 1 + 48) 128); lia.
  - apply uchar_small. rewrite lor_0x80 by lia.
    destruct (Z.ltb_spec (p - 1) 128); lia.
Qed.

(** C1. For every position p with 1 <= p <= 32, [lcd_pos p] sends exactly one
    command byte, equal to [a | 0x80] where [a = (p-1) + 48] if [p-1 >= 16]
    and [a = p-1] otherwise: the call is [lcd_byte (a | 0x80)] with RS forced
    low just before, and the controller receives that single byte in command
    mode. *)
Theorem lcd_pos_command_byte (p : Z) (st : driver) :
  1 <= p <= 32 ->
  let a := if p - 1 >=? 16 then (p - 1) + 48 else p - 1 in
  lcd_pos p st = lcd_byte (Z.lor a 0x80) (gpio_set_value (pins RS) 0 st) /\
  received st (lcd_pos p st) = [(Command, Z.lor a 0x80)].
Proof.
  intros Hp a. split.
  - unfold a. rewrite <- (pos_command_valid p Hp). reflexivity.
  - unfold a. rewrite <- (pos_command_valid p Hp). apply received_pos.
Qed.

Lemma lcd_pos_command_byte_line2 :
  1 <= 20 <= 32 /\ received loaded (lcd_pos 20 loaded) = [(Command, 0xC3)].
Proof.
  split; [lia|]. apply (lcd_pos_command_byte 20 loaded). lia.
Defined.

(** C4, as the specification states it, fails at p = 32: the address is 79,
    that is 0x4F, and the command byte is 0x4F | 0x80 = 0xCF, not 0xEF. *)
Lemma lcd_pos_last_cell :
  received loaded (lcd_pos 32 loaded) = [(Command, 0xCF)] /\
  received loaded (lcd_pos 32 loaded) <> [(Command, 0xEF)].
Proof. rewrite received_pos. split; [reflexivity | discriminate]. Qed.

(** C4, amended.  At the four boundary positions [lcd_pos] sends the command
    bytes 0x80 (p = 1), 0x8F (p = 16), 0xC0 (p = 17) and 0xCF (p = 32). *)
Theorem lcd_pos_boundaries (st : driver) :
  received st (lcd_pos 1 st) = [(Command, 0x80)] /\
  received st (lcd_pos 16 st) = [(Command, 0x8F)] /\
  received st (lcd_pos 17 st) = [(Command, 0xC0)] /\
  received st (lcd_pos 32 st) = [(Command, 0xCF)].
Proof. rewrite !received_pos. repeat split; reflexivity. Qed.

(** ** The position channel *)

Lemma is_digit_range (c : Z) : is_digit c = true -> 48 <= c <= 57.
Proof. unfold is_digit. lia. Qed.

Lemma digit_range (c : Z) : 0 <= digit c <= 9.
Proof.
  unfold digit. destruct (is_digit c) eqn:E; [|lia].
  apply is_digit_range in E. lia.
Qed.

Lemma position_value_range (b0 b1 : Z) : 0 <= position_value b0 b1 <= 99.
Proof.
  unfold position_value.
  pose proof (digit_range b0). pose proof (digit_range b1).
  destruct (is_digit b1); lia.
Qed.

(** The arithmetic on [pos] in the branch for two or more bytes never wraps. *)
Lemma pos_two_bytes (b0 b1 : Z) :
  (let pos := 0 in
   let pos := if is_digit b0 then uchar (b0 - 48) else pos in
   if is_digit b1 then
     let pos := uchar (pos * 10) in
     uchar (pos + b1 - 48)
   else pos)
  = position_value b0 b1.
Proof.
  unfold position_value, digit. cbv zeta.
  destruct (is_digit b0) eqn:E0, (is_digit b1) eqn:E1;
    try apply is_digit_range in E0; try apply is_digit_range in E1;
    rewrite ?(uchar_small (b0 - 48)) by lia;
    rewrite ?(uchar_small ((b0 - 48) * 10)) by lia;
    rewrite ?(uchar_small (0 * 10)) by lia;
    rewrite ?uchar_small by lia; lia.
Qed.

Lemma device_write_position (buffer : list Z) (len : nat) (st : driver) (b0 b1 : Z) :
  minor st = 2 -> (2 <= len <= 30)%nat ->
  buffer !! 0%nat = Some b0 -> buffer !! 1%nat = Some b1 ->
  device_write buffer len st
  = Some (Z.of_nat len,
          if (0 <? position_value b0 b1) && (position_value b0 b1 <=? 32)
          then lcd_pos (position_value b0 b1) st else st).
Proof.
  intros Hm Hlen H0 H1. unfold device_write.
  destruct (Nat.ltb_spec 30 len); [lia|].
  rewrite Hm. simpl (2 =? 1). simpl (2 =? 2). cbv iota.
  destruct (Nat.eqb_spec len 0); [lia|].
  destruct (Nat.eqb_spec len 1); [lia|].
  rewrite H0, H1. cbv zeta. 
  pose proof (pos_two_bytes b0 b1) as E. cbv zeta in E. rewrite E.
  pose proof (position_value_range b0 b1).
  replace (negb (position_value b0 b1 =? 0)) with (0 <? position_value b0 b1)
    by (destruct (Z.eqb_spec (position_value b0 b1) 0),
                 (Z.ltb_spec 0 (position_value b0 b1)); simpl; lia).
  by destruct ((0 <? position_value b0 b1) && (position_value b0 b1 <=? 32)).
Qed.

Lemma lcd_pos_changes (p : Z) (st : driver) : lcd_pos p st <> st.
Proof.
  intros E. pose proof (received_pos p st) as H.
  rewrite E in H. unfold received in H. by rewrite issued_refl in H.
Qed.

(** C3, as the specification states it, fails on a digit followed by a byte
    that is not a digit: on the two bytes '5' and newline the specification's
    value is 50 and nothing would be called, but the dispatcher computes 5 and
    calls [lcd_pos 5], which sends the command byte 0x84. *)
Lemma position_write_digit_newline :
  claimed_value 53 10 = 50 /\
  claimed_position_write 53 10 2 (opened 2) = Some (2, opened 2) /\
  device_write [53; 10] 2 (opened 2) = Some (2, lcd_pos 5 (opened 2)) /\
  received (opened 2) (lcd_pos 5 (opened 2)) = [(Command, 0x84)] /\
  device_write [53; 10] 2 (opened 2) <> claimed_position_write 53 10 2 (opened 2).
Proof.
  assert (E : device_write [53; 10] 2 (opened 2) = Some (2, lcd_pos 5 (opened 2))).
  { rewrite (device_write_position [53; 10] 2 (opened 2) 53 10)
      by first [reflexivity | lia].
    reflexivity. }
  split; [reflexivity|]. split; [reflexivity|]. split; [exact E|]. split.
  - apply received_pos.
  - rewrite E.
    change (claimed_position_write 53 10 2 (opened 2))
      with (Some (2, opened 2)).
    intros H. apply (lcd_pos_changes 5 (opened 2)). congruence.
Qed.

(** C3, amended.  On the position channel a write of 2 to 30 bytes uses only
    its first two bytes.  When the second byte is an ASCII digit the value is
    [digit(byte0) * 10 + digit(byte1)]; when it is not, the value is
    [digit(byte0)], not multiplied by ten.  A first byte that is not a digit
    counts as 0.  [lcd_pos value] is called if and only if [0 < value <= 32],
    and nothing is done otherwise; the bytes after the second play no part. *)
Theorem position_write_two_bytes
  (buffer : list Z) (len : nat) (st : driver) (b0 b1 : Z) :
  minor st = 2 -> (2 <= len <= 30)%nat ->
  buffer !! 0%nat = Some b0 -> buffer !! 1%nat = Some b1 ->
  let value :=
    if is_digit b1 then digit b0 * 10 + digit b1 else digit b0 in
  device_write buffer len st
  = Some (Z.of_nat len,
          if (0 <? value) && (value <=? 32) then lcd_pos value st else st).
Proof. intros Hm Hlen H0 H1. by apply device_write_position. Qed.

Lemma position_write_two_bytes_examples :
  device_write [49; 55] 2 (opened 2) = Some (2, lcd_pos 17 (opened 2)) /\
  device_write [53; 10] 2 (opened 2) = Some (2, lcd_pos 5 (opened 2)) /\
  device_write [57; 57; 49] 3 (opened 2) = Some (3, opened 2).
Proof.
  split; [|split].
  - apply (position_write_two_bytes [49; 55] 2%nat (opened 2) 49 55);
      [reflexivity | lia | reflexivity | reflexivity].
  - apply (position_write_two_bytes [53; 10] 2%nat (opened 2) 53 10);
      [reflexivity | lia | reflexivity | reflexivity].
  - apply (position_write_two_bytes [57; 57; 49] 3%nat (opened 2) 57 57);
      [reflexivity | lia | reflexivity | reflexivity].
Defined.

(** ** Bounded printing *)

Lemma received_length_send_all (bytes : list Z) (st : driver) :
  length (received st (send_all bytes st)) = length bytes.
Proof.
  rewrite <- (length_map snd), received_send_all. apply length_map.
Qed.

(** C5. [lcd_print] passes to [lcd_byte] exactly the bytes that come before
    the first zero byte, in order, and at most 16 of them.  The text is an
    array that holds a zero byte or at least 16 bytes, so that the loop stays
    inside it.  On "HELLO" five bytes are sent; on 20 bytes without a zero
    the first 16 are sent and nothing more. *)
Theorem lcd_print_transmits :
  (forall (text : list Z) (st : driver),
      0 ∈ text \/ (16 <= length text)%nat ->
      let sent := take 16 (before_zero text) in
      lcd_print text st = Some (send_all sent st) /\
      issued st (send_all sent st) = text_trace sent /\
      map snd (received st (send_all sent st)) = map uchar sent) /\
  (forall st : driver,
      lcd_print [72; 69; 76; 76; 79; 0] st
      = Some (send_all [72; 69; 76; 76; 79] st) /\
      map snd (received st (send_all [72; 69; 76; 76; 79] st))
      = [72; 69; 76; 76; 79]) /\
  (forall (text : list Z) (st : driver),
      length text = 20%nat -> 0 ∉ text ->
      lcd_print text st = Some (send_all (take 16 text) st) /\
      length (received st (send_all (take 16 text) st)) = 16%nat).
Proof.
  split; [|split].
  - intros text st H sent. split; [by apply lcd_print_sent|]. split.
    + apply (issued_performs _ _ _ (performs_send_all sent)).
    + apply received_send_all.
  - intros st. split.
    + rewrite lcd_print_sent; [done|]. left.
      apply list_elem_of_In. simpl. tauto.
    + by rewrite received_send_all.
  - intros text st Hlen Hz. split.
    + rewrite lcd_print_sent by lia. by rewrite before_zero_no_zero.
    + rewrite received_length_send_all, length_take. lia.
Qed.

Lemma lcd_print_transmits_examples :
  lcd_print [76; 67; 68; 0; 88] loaded = Some (send_all [76; 67; 68] loaded) /\
  lcd_print (replicate 20 65) loaded = Some (send_all (replicate 16 65) loaded).
Proof.
  destruct lcd_print_transmits as (Hany & _ & Hlong). split.
  - apply (Hany [76; 67; 68; 0; 88] loaded). left.
    apply list_elem_of_In. simpl. tauto.
  - apply (Hlong (replicate 20 65) loaded); [reflexivity|].
    intros H. apply list_elem_of_In in H. simpl in H. lia.
Defined.

(** ** The mode line *)

(** C6. Every [lcd_byte] ends with RS high (Character).  [lcd_cls] and
    [lcd_pos] write RS low immediately before the calls of their [lcd_byte],
    whose two nibbles the controller therefore latches in Command mode.
    After [lcd_cls] and [lcd_pos] the mode is Character; after [lcd_print] it
    is Character as soon as a byte was sent or the mode was Character on
    entry, and it is Character on entry at every call the driver makes, since
    it is Character in every state the loaded driver can be in. *)
Theorem mode_invariant :
  (forall (byte : Z) (st : driver), character_mode (lcd_byte byte st)) /\
  (forall st : driver,
      issued st (lcd_cls st)
      = GpioSet RS_pin 0 :: issued st (lcd_byte 0x01 st) ++ [Mdelay 2] /\
      latched (lines st) (issued st (lcd_cls st))
      = [(Command, 0); (Command, 1)]) /\
  (forall (pos : Z) (st : driver),
      issued st (lcd_pos pos st)
      = GpioSet RS_pin 0 :: issued st (lcd_byte (pos_command pos) st) /\
      map fst (latched (lines st) (issued st (lcd_pos pos st)))
      = [Command; Command]) /\
  (forall st : driver, character_mode (lcd_cls st)) /\
  (forall (pos : Z) (st : driver), character_mode (lcd_pos pos st)) /\
  (forall (buffer : list Z) (st st' : driver),
      lcd_print buffer st = Some st' ->
      character_mode st \/ take 16 (before_zero buffer) <> [] ->
      character_mode st') /\
  (forall st : driver, reachable st -> character_mode st).
Proof.
  split; [intros byte st; apply mode_after_byte|].
  split.
  { intros st. split.
    - by rewrite (issued_performs _ _ _ performs_cls),
        (issued_performs _ _ _ (performs_byte 1)).
    - by rewrite (issued_performs _ _ _ performs_cls), latched_cls. }
  split.
  { intros pos st. split.
    - by rewrite (issued_performs _ _ _ (performs_pos pos)),
        (issued_performs _ _ _ (performs_byte _)).
    - by rewrite (issued_performs _ _ _ (performs_pos pos)),
        latched_command_byte. }
  split; [intros st; apply mode_after_cls|].
  split; [intros pos st; apply mode_after_pos|].
  split.
  - intros buffer st st' H Hm. apply lcd_print_loop_sent in H as ->.
    by apply mode_after_send_all.
  - intros st H. by apply reachable_idle in H as [H _].
Qed.

Lemma mode_invariant_loaded :
  character_mode loaded /\
  character_mode (send_all [72; 73] (static_init all_low)).
Proof.
  destruct mode_invariant as (_ & _ & _ & _ & _ & Hprint & Hreach). split.
  - apply (Hreach loaded).
    apply (reach_init all_low default_line1 default_line2).
    vm_compute. reflexivity.
  - apply (Hprint [72; 73; 0] (static_init all_low)).
    + reflexivity.
    + right. discriminate.
Defined.

(** ** Oversized writes *)

(** C7. A write of more than 30 bytes, on any channel, is dropped whole:
    the only kernel service called is [printk], no pin is written, the
    controller receives nothing, lines and message buffer are unchanged, and
    the full byte count is returned. *)
Theorem device_write_too_long (buffer : list Z) (len : nat) (st : driver) :
  (30 < len)%nat ->
  let st' := printk KERN_INFO (Z.of_nat len) st in
  device_write buffer len st = Some (Z.of_nat len, st') /\
  issued st st' = [Printk KERN_INFO (Z.of_nat len)] /\
  written_gpios st st' = [] /\
  received st st' = [] /\
  lines st' = lines st /\
  message st' = message st.
Proof.
  intros Hlen st'.
  assert (E : issued st st' = [Printk KERN_INFO (Z.of_nat len)])
    by apply (issued_performs _ _ _ (performs_printk _ _)).
  split.
  { unfold device_write. by destruct (Nat.ltb_spec 30 len); [|lia]. }
  split; [exact E|].
  split; [unfold written_gpios; by rewrite E|].
  split; [|by split].
  unfold received. rewrite E. by rewrite latched_quiet.
Qed.

Lemma device_write_too_long_plain :
  (30 < 31)%nat /\
  device_write (replicate 31 65) 31 (opened 0)
  = Some (31, printk KERN_INFO 31 (opened 0)) /\
  received (opened 0) (printk KERN_INFO 31 (opened 0)) = [].
Proof.
  split; [lia|]. split.
  - apply (device_write_too_long (replicate 31 65) 31 (opened 0)). lia.
  - apply (device_write_too_long (replicate 31 65) 31 (opened 0)). lia.
Defined.

(** ** Nibble and byte transfers *)

Lemma shiftr4_div (byte : Z) : Z.shiftr byte 4 = byte / 16.
Proof. by rewrite Z.shiftr_div_pow2 by lia. Qed.

(** C8. [lcd_nibble] raises EN, drives DB4..DB7 to bits 0..3 of its argument
    (DB4 takes the least significant bit), then drops EN, in that order, which
    makes the controller latch the 4-bit value.  [lcd_byte] on an 8-bit value
    is two such transfers, the high nibble [byte / 16] first and the low
    nibble [byte mod 16] second. *)
Theorem nibble_and_byte_order :
  (forall (nibble : Z) (st : driver),
      issued st (lcd_nibble nibble st)
      = [ GpioSet EN_pin 1; Ndelay 150;
          GpioSet DB4_pin (Z.b2z (Z.testbit nibble 0));
          GpioSet DB5_pin (Z.b2z (Z.testbit nibble 1));
          GpioSet DB6_pin (Z.b2z (Z.testbit nibble 2));
          GpioSet DB7_pin (Z.b2z (Z.testbit nibble 3));
          Ndelay 80; GpioSet EN_pin 0; Ndelay 10 ]) /\
  (forall (nibble : Z) (st : driver),
      0 <= nibble < 16 ->
      latched (lines st) (issued st (lcd_nibble nibble st))
      = [(mode_of (lines st), nibble)]) /\
  (forall (byte : Z) (st : driver),
      0 <= byte < 256 ->
      lcd_byte byte st
      = gpio_set_value RS_pin 1
          (udelay 40 (lcd_nibble (byte mod 16) (lcd_nibble (byte / 16) st))) /\
      issued st (lcd_byte byte st)
      = issued st (lcd_nibble (byte / 16) st) ++
        issued st (lcd_nibble (byte mod 16) st) ++
        [Udelay 40; GpioSet RS_pin 1] /\
      latched (lines st) (issued st (lcd_byte byte st))
      = [(mode_of (lines st), byte / 16); (mode_of (lines st), byte mod 16)]).
Proof.
  split; [|split].
  - intros nibble st. apply (issued_performs _ _ _ (performs_nibble nibble)).
  - intros nibble st Hn.
    rewrite (issued_performs _ _ _ (performs_nibble nibble)), latched_nibble.
    by rewrite Z.mod_small.
  - intros byte st Hb.
    assert (Hhi : uchar (Z.shiftr byte 4) = byte / 16).
    { rewrite shiftr4_div. apply uchar_small.
      Z.div_mod_to_equations. lia. }
    split; [|split].
    + unfold lcd_byte, then_. rewrite Hhi.
      rewrite (performs_nibble (byte mod 16)), (performs_nibble byte).
      by rewrite nibble_trace_mod16.
    + rewrite (issued_performs _ _ _ (performs_byte byte)).
      rewrite !(issued_performs _ _ _ (performs_nibble _)).
      unfold byte_trace. by rewrite shiftr4_div, nibble_trace_mod16.
    + rewrite (issued_performs _ _ _ (performs_byte byte)), latched_byte.
      rewrite shiftr4_div. do 3 f_equal.
      apply Z.mod_small. Z.div_mod_to_equations. lia.
Qed.

Lemma nibble_and_byte_order_letter_A :
  latched (lines loaded) (issued loaded (lcd_nibble 12 loaded))
  = [(Character, 12)] /\
  latched (lines loaded) (issued loaded (lcd_byte 65 loaded))
  = [(Character, 4); (Character, 1)].
Proof.
  destruct nibble_and_byte_order as (_ & Hnibble & Hbyte). split.
  - apply (Hnibble 12 loaded). lia.
  - apply (Hbyte 65 loaded). lia.
Defined.

(** C10. [lcd_nibble] writes the EN line and the four data lines and nothing
    else: RS is never written and keeps its level, EN is low on return, and
    the statics are untouched. *)
Theorem lcd_nibble_frame (nibble : Z) (st : driver) :
  written_gpios st (lcd_nibble nibble st)
  = [EN_pin; DB4_pin; DB5_pin; DB6_pin; DB7_pin; EN_pin] /\
  (RS_pin ∉ written_gpios st (lcd_nibble nibble st)) /\
  rs (lines (lcd_nibble nibble st)) = rs (lines st) /\
  en (lines (lcd_nibble nibble st)) = false /\
  Device_Open (lcd_nibble nibble st) = Device_Open st /\
  minor (lcd_nibble nibble st) = minor st /\
  message (lcd_nibble nibble st) = message st.
Proof.
  assert (E : written_gpios st (lcd_nibble nibble st)
              = [EN_pin; DB4_pin; DB5_pin; DB6_pin; DB7_pin; EN_pin]).
  { unfold written_gpios.
    by rewrite (issued_performs _ _ _ (performs_nibble nibble)). }
  split; [done|]. split.
  { rewrite E. intros H. apply list_elem_of_In in H. simpl in H.
    unfold RS_pin, EN_pin, DB4_pin, DB5_pin, DB6_pin, DB7_pin in H. lia. }
  rewrite (performs_nibble nibble). unfold advance. simpl lines.
  by rewrite replay_nibble.
Qed.

(** ** The message buffer *)

Lemma message_send_all (bytes : list Z) (st : driver) :
  message (send_all bytes st) = message st.
Proof. by rewrite (performs_send_all bytes). Qed.

Lemma insert_terminator (n : nat) (payload rest : list Z) (old : Z) :
  length payload = n ->
  <[n := 0]> (payload ++ old :: rest) = payload ++ 0 :: rest.
Proof.
  intros <-. rewrite insert_app_r_alt by lia. by rewrite Nat.sub_diag.
Qed.

(** C9. A write of [len <= 30] bytes on the plain channel (minor 0) stores the
    [len] payload bytes at indices 0..len-1 of the 32-byte [message] and a zero
    at index [len]; the bytes above index [len], index 31 among them, are not
    written.  Every access is inside the array: the call has a result. *)
Theorem plain_write_stores (buffer : list Z) (len : nat) (st : driver) :
  minor st = 0 -> (len <= 30)%nat -> (len <= length buffer)%nat ->
  length (message st) = 32%nat ->
  exists st' : driver,
    device_write buffer len st = Some (Z.of_nat len, st') /\
    message st' = take len buffer ++ 0 :: drop (S len) (message st) /\
    length (message st') = 32%nat /\
    (forall i : nat, (i < len)%nat -> message st' !! i = buffer !! i) /\
    message st' !! len = Some 0 /\
    (forall i : nat, (len < i)%nat -> message st' !! i = message st !! i).
Proof.
  intros Hm Hlen Hbuf Hmsg.
  destruct (lookup_lt_is_Some_2 (message st) len) as [old Hold]; [lia|].
  set (m' := take len buffer ++ 0 :: drop (S len) (message st)).
  assert (Hl : length (take len buffer) = len) by (rewrite length_take; lia).
  assert (Hm' : length m' = 32%nat).
  { unfold m'. rewrite length_app, Hl. simpl. rewrite length_drop. lia. }
  exists (send_all (take 16 (before_zero m')) (set_message m' st)).
  split; [|split; [|split; [|split; [|split]]]].
  - unfold device_write.
    destruct (Nat.ltb_spec 30 len); [lia|].
    rewrite Hm. simpl (0 =? 1). simpl (0 =? 2). simpl (0 =? 0). cbv iota.
    rewrite memcpy_ok by lia.
    rewrite store_ok by (rewrite length_app, Hl, length_drop; lia).
    rewrite (drop_S _ _ _ Hold), (insert_terminator _ _ _ _ Hl). fold m'.
    by rewrite lcd_print_sent by (right; lia).
  - by rewrite message_send_all.
  - by rewrite message_send_all.
  - intros i Hi. rewrite message_send_all. simpl. unfold m'.
    rewrite lookup_app_l by lia. apply lookup_take_lt. lia.
  - rewrite message_send_all. simpl. unfold m'.
    rewrite lookup_app_r by lia. by rewrite Hl, Nat.sub_diag.
  - intros i Hi. rewrite message_send_all. simpl. unfold m'.
    rewrite lookup_app_r by lia. rewrite Hl.
    destruct (i - len)%nat as [|k] eqn:Ek; [lia|]. simpl.
    rewrite lookup_drop. f_equal. lia.
Qed.

Lemma plain_write_stores_hi :
  exists st' : driver,
    device_write [72; 73] 2 (opened 0) = Some (2, st') /\
    take 3 (message st') = [72; 73; 0].
Proof.
  destruct (plain_write_stores [72; 73] 2 (opened 0))
    as (st' & Hw & Hmsg & _); [reflexivity | lia | simpl; lia | reflexivity |].
  exists st'. split; [exact Hw|]. rewrite Hmsg. reflexivity.
Defined.

(** * Further properties of the driver *)

(** ** Shape of a write *)

Lemma set_message_same (st : driver) : set_message (message st) st = st.
Proof. by destruct st. Qed.

Lemma issued_advance_message (evs : list event) (m : list Z) (st : driver) :
  issued st (advance evs (set_message m st)) = evs.
Proof. unfold issued, advance. cbn [log set_message]. apply drop_app_length. Qed.

Lemma performs_cls_trace : performs lcd_cls cls_trace.
Proof. apply performs_cls. Qed.

Lemma performs_pos_trace (pos : Z) : performs (lcd_pos pos) (pos_trace pos).
Proof. apply performs_pos. Qed.

Lemma length_take_le (bytes : list Z) (n : nat) : (length (take n bytes) <= n)%nat.
Proof. rewrite length_take. lia. Qed.

(** Every write that returns has returned [len], and has done nothing but
    store a new [message] and issue calls of one of five shapes. *)
Lemma device_write_outcome (buffer : list Z) (len : nat) (st st' : driver) (ret : Z) :
  device_write buffer len st = Some (ret, st') ->
  ret = Z.of_nat len /\
  exists (evs : list event) (m : list Z),
    st' = advance evs (set_message m st) /\ write_shape len evs /\
    length m = length (message st).
Proof.
  unfold device_write. intros H.
  destruct (30 <? len)%nat.
  { inversion H; subst. split; [done|].
    exists [Printk KERN_INFO (Z.of_nat len)], (message st).
    rewrite set_message_same, <- (performs_printk _ _ st).
    repeat split. constructor. }
  destruct (minor st =? 1).
  { inversion H; subst. split; [done|]. exists cls_trace, (message st).
    rewrite set_message_same, <- (performs_cls_trace st).
    repeat split. constructor. }
  assert (Hnothing : exists (evs : list event) (m : list Z),
    st = advance evs (set_message m st) /\ write_shape len evs /\
    length m = length (message st)).
  { exists [], (message st). rewrite set_message_same, advance_nil.
    repeat split. constructor. }
  assert (Hpos : forall pos, exists (evs : list event) (m : list Z),
    lcd_pos pos st = advance evs (set_message m st) /\ write_shape len evs /\
    length m = length (message st)).
  { intros pos. exists (pos_trace pos), (message st).
    rewrite set_message_same, <- (performs_pos_trace pos st).
    repeat split. constructor. }
  destruct (minor st =? 2).
  - destruct (len =? 0)%nat; [by inversion H; subst|].
    destruct (len =? 1)%nat.
    + destruct (buffer !! 0%nat) as [b0|]; [|done].
      destruct (is_digit b0); inversion H; subst; split; auto.
    + destruct (buffer !! 0%nat) as [b0|]; [|done].
      destruct (buffer !! 1%nat) as [b1|]; [|done].
      match type of H with
      | (if ?c then _ else _) = _ => destruct c
      end; inversion H; subst; split; auto.
  - destruct (minor st =? 0); [|by inversion H; subst].
    destruct (memcpy (message st) buffer len) as [m|] eqn:Em; [|done].
    destruct (store len 0 m) as [m'|] eqn:Es; [|done].
    destruct (lcd_print m' (set_message m' st)) as [st2|] eqn:Ep; [|done].
    inversion H; subst. split; [done|].
    apply lcd_print_loop_sent in Ep. rewrite drop_0 in Ep.
    exists (text_trace (take 16 (before_zero m'))), m'.
    rewrite Ep, (performs_send_all _ (set_message m' st)).
    split; [done|]. split; [constructor; apply length_take_le|].
    rewrite (store_length _ _ _ _ Es). unfold memcpy in Em.
    apply (memcpy_from_length _ _ _ _ _ Em).
Qed.

Lemma busy_ns_app (a b : list event) : busy_ns (a ++ b) = busy_ns a + busy_ns b.
Proof.
  induction a as [|e a IH]; [done|]. cbn [app busy_ns fold_right].
  fold (busy_ns (a ++ b)). fold (busy_ns a). lia.
Qed.

Lemma busy_ns_nibble (n : Z) : busy_ns (nibble_trace n) = 240.
Proof. reflexivity. Qed.

Lemma busy_ns_byte (byte : Z) : busy_ns (byte_trace byte) = 40480.
Proof. unfold byte_trace. by rewrite !busy_ns_app, !busy_ns_nibble. Qed.

Lemma busy_ns_text (bytes : list Z) :
  busy_ns (text_trace bytes) = 40480 * Z.of_nat (length bytes).
Proof.
  induction bytes as [|c cs IH]; [done|].
  change (text_trace (c :: cs)) with (byte_trace c ++ text_trace cs).
  rewrite busy_ns_app, busy_ns_byte, IH. cbn [length]. lia.
Qed.

Lemma busy_ns_cls : busy_ns cls_trace = 2040480.
Proof.
  unfold cls_trace.
  change (GpioSet RS_pin 0 :: byte_trace 1 ++ [Mdelay 2])
    with ([GpioSet RS_pin 0] ++ byte_trace 1 ++ [Mdelay 2]).
  by rewrite !busy_ns_app, busy_ns_byte.
Qed.

Lemma busy_ns_pos (pos : Z) : busy_ns (pos_trace pos) = 40480.
Proof.
  unfold pos_trace.
  change (GpioSet RS_pin 0 :: byte_trace (pos_command pos))
    with ([GpioSet RS_pin 0] ++ byte_trace (pos_command pos)).
  by rewrite busy_ns_app, busy_ns_byte.
Qed.

Lemma write_shape_busy (len : nat) (evs : list event) :
  write_shape len evs -> 0 <= busy_ns evs <= 2040480.
Proof.
  intros [| | |pos|bytes Hb].
  - cbn. lia.
  - cbn. lia.
  - rewrite busy_ns_cls. lia.
  - rewrite busy_ns_pos. lia.
  - rewrite busy_ns_text. lia.
Qed.

(** X1. Whatever the channel and the bytes written, one [device_write]
    spends at most 2040480 ns in busy waits (the clear channel reaches this
    bound: 2 ms after the command plus the 40.48 us of one byte). *)
Theorem device_write_busy_wait
  (buffer : list Z) (len : nat) (st st' : driver) (ret : Z) :
  device_write buffer len st = Some (ret, st') ->
  0 <= busy_ns (issued st st') <= 2040480.
Proof.
  intros H. apply device_write_outcome in H as (_ & evs & m & -> & Hs & _).
  rewrite issued_advance_message. by apply (write_shape_busy len).
Qed.

Lemma device_write_busy_wait_clear :
  busy_ns (issued (opened 1) (lcd_cls (opened 1))) = 2040480 /\
  0 <= busy_ns (issued (opened 1) (lcd_cls (opened 1))) <= 2040480.
Proof.
  split.
  - by rewrite (issued_performs _ _ _ performs_cls_trace), busy_ns_cls.
  - apply (device_write_busy_wait [] 0 (opened 1) (lcd_cls (opened 1)) 0).
    reflexivity.
Defined.

(** ** Pins written *)

Lemma omap_gpio_app (a b : list event) :
  omap gpio_of (a ++ b) = omap gpio_of a ++ omap gpio_of b.
Proof. apply omap_app. Qed.

Lemma pins_nibble (n : Z) :
  Forall (fun g => g ∈ pin_table) (omap gpio_of (nibble_trace n)).
Proof.
  cbn. repeat constructor.
Qed.

Lemma pins_byte (byte : Z) :
  Forall (fun g => g ∈ pin_table) (omap gpio_of (byte_trace byte)).
Proof.
  unfold byte_trace. rewrite !omap_gpio_app, !Forall_app.
  split; [apply pins_nibble|]. split; [apply pins_nibble|].
  cbn. repeat constructor.
Qed.

Lemma pins_command_byte (byte : Z) :
  Forall (fun g => g ∈ pin_table)
         (omap gpio_of (GpioSet RS_pin 0 :: byte_trace byte)).
Proof.
  change (GpioSet RS_pin 0 :: byte_trace byte)
    with ([GpioSet RS_pin 0] ++ byte_trace byte).
  rewrite omap_gpio_app, Forall_app. split; [|apply pins_byte].
  cbn. repeat constructor.
Qed.

Lemma pins_text (bytes : list Z) :
  Forall (fun g => g ∈ pin_table) (omap gpio_of (text_trace bytes)).
Proof.
  induction bytes as [|c cs IH]; [constructor|].
  change (text_trace (c :: cs)) with (byte_trace c ++ text_trace cs).
  rewrite omap_gpio_app, Forall_app. split; [apply pins_byte | apply IH].
Qed.

Lemma write_shape_pins (len : nat) (evs : list event) :
  write_shape len evs -> Forall (fun g => g ∈ pin_table) (omap gpio_of evs).
Proof.
  intros [| | |pos|bytes Hb].
  - constructor.
  - constructor.
  - unfold cls_trace.
    change (GpioSet RS_pin 0 :: byte_trace 1 ++ [Mdelay 2])
      with ((GpioSet RS_pin 0 :: byte_trace 1) ++ [Mdelay 2]).
    rewrite omap_gpio_app, Forall_app. split; [apply pins_command_byte|].
    constructor.
  - apply pins_command_byte.
  - apply pins_text.
Qed.

(** X2. A write never touches a gpio outside the six of the [pins] array,
    and it leaves [Device_Open] and [minor] as they were: it returns [len],
    keeps the size of [message], and only appends to the log of calls. *)
Theorem device_write_frame
  (buffer : list Z) (len : nat) (st st' : driver) (ret : Z) :
  device_write buffer len st = Some (ret, st') ->
  ret = Z.of_nat len /\
  Forall (fun g => g ∈ pin_table) (written_gpios st st') /\
  Device_Open st' = Device_Open st /\
  minor st' = minor st /\
  length (message st') = length (message st) /\
  log st' = log st ++ issued st st'.
Proof.
  intros H. apply device_write_outcome in H as (Hr & evs & m & -> & Hs & Hm).
  split; [done|]. unfold written_gpios. rewrite issued_advance_message.
  split; [by apply (write_shape_pins len)|]. by repeat split.
Qed.

Lemma device_write_frame_position :
  Forall (fun g => g ∈ pin_table)
         (written_gpios (opened 2) (lcd_pos 17 (opened 2))) /\
  minor (lcd_pos 17 (opened 2)) = 2.
Proof.
  destruct (device_write_frame [49; 55] 2 (opened 2) (lcd_pos 17 (opened 2)) 2)
    as (_ & Hp & _ & Hm & _); [reflexivity|].
  split; [exact Hp | exact Hm].
Defined.

(** ** Whole bytes *)

Lemma nibbles_of_uchar (m : mode) (byte : Z) :
  nibbles_of m (uchar byte) = nibbles_of m byte.
Proof.
  unfold nibbles_of, uchar. rewrite !Z.shiftr_div_pow2 by lia.
  change (2 ^ 4) with 16.
  assert (H1 : byte mod 256 / 16 mod 16 = byte / 16 mod 16)
    by (Z.div_mod_to_equations; lia).
  assert (H2 : (byte mod 256) mod 16 = byte mod 16)
    by (Z.div_mod_to_equations; lia).
  by rewrite H1, H2.
Qed.

Lemma latched_text_nibbles (bytes : list Z) (l : gpio_lines) :
  latched l (text_trace bytes)
  = match bytes with
    | [] => []
    | c :: cs => nibbles_of (mode_of l) c ++ flat_map (nibbles_of Character) cs
    end.
Proof.
  revert l. induction bytes as [|c cs IH]; intros l; [done|].
  change (text_trace (c :: cs)) with (byte_trace c ++ text_trace cs).
  rewrite latched_app, latched_byte, IH. unfold nibbles_of at 1. f_equal.
  destruct cs as [|c' cs']; [done|]. by rewrite replay_byte.
Qed.

Lemma flat_map_nibbles_uchar (m : mode) (bytes : list Z) :
  flat_map (fun t : mode * Z => nibbles_of (fst t) (snd t))
           (map (fun c => (m, uchar c)) bytes)
  = flat_map (nibbles_of m) bytes.
Proof.
  induction bytes as [|c cs IH]; [done|].
  cbn [map flat_map fst snd]. by rewrite IH, nibbles_of_uchar.
Qed.

Lemma write_shape_whole_bytes (len : nat) (evs : list event) (l : gpio_lines) :
  write_shape len evs ->
  latched l evs
  = flat_map (fun t : mode * Z => nibbles_of (fst t) (snd t))
             (transfers (latched l evs)).
Proof.
  intros [| | |pos|bytes Hb].
  - by rewrite latched_quiet.
  - done.
  - unfold cls_trace. by rewrite latched_cls.
  - unfold pos_trace. rewrite latched_command_byte.
    cbn [transfers flat_map fst snd]. rewrite nibbles_join, nibbles_of_uchar.
    by rewrite app_nil_r.
  - rewrite transfers_text, latched_text_nibbles.
    destruct bytes as [|c cs]; [done|].
    cbn [flat_map fst snd]. by rewrite flat_map_nibbles_uchar, nibbles_of_uchar.
Qed.

(** X3. A write never leaves the controller between the two halves of a
    byte: the nibbles it latches are, in order, the high and the low nibble of
    each byte it receives, both with the same RS level. *)
Theorem device_write_whole_bytes
  (buffer : list Z) (len : nat) (st st' : driver) (ret : Z) :
  device_write buffer len st = Some (ret, st') ->
  latched (lines st) (issued st st')
  = flat_map (fun t : mode * Z => nibbles_of (fst t) (snd t)) (received st st').
Proof.
  intros H. apply device_write_outcome in H as (_ & evs & m & -> & Hs & _).
  unfold received. rewrite issued_advance_message.
  by apply (write_shape_whole_bytes len).
Qed.

Lemma device_write_whole_bytes_position :
  latched (lines (opened 2)) (issued (opened 2) (lcd_pos 17 (opened 2)))
  = [(Command, 12); (Command, 0)].
Proof.
  rewrite (device_write_whole_bytes [49; 55] 2 (opened 2)
             (lcd_pos 17 (opened 2)) 2); [|reflexivity].
  by rewrite received_pos.
Defined.

(** ** The plain channel *)

Lemma before_zero_terminated (payload rest : list Z) :
  before_zero (payload ++ 0 :: rest) = before_zero payload.
Proof.
  induction payload as [|c cs IH]; [done|]. cbn [app before_zero].
  by rewrite IH.
Qed.

Lemma device_write_plain (buffer : list Z) (len : nat) (st : driver) :
  minor st = 0 -> (len <= 30)%nat -> (len <= length buffer)%nat ->
  length (message st) = 32%nat ->
  device_write buffer len st
  = Some (Z.of_nat len,
          send_all (take 16 (before_zero (take len buffer)))
            (set_message (take len buffer ++ 0 :: drop (S len) (message st)) st)).
Proof.
  intros Hm Hlen Hbuf Hmsg.
  destruct (lookup_lt_is_Some_2 (message st) len) as [old Hold]; [lia|].
  assert (Hl : length (take len buffer) = len) by (rewrite length_take; lia).
  unfold device_write.
  destruct (Nat.ltb_spec 30 len); [lia|].
  rewrite Hm. simpl (0 =? 1). simpl (0 =? 2). simpl (0 =? 0). cbv iota.
  rewrite memcpy_ok by lia.
  rewrite store_ok by (rewrite length_app, Hl, length_drop; lia).
  rewrite (drop_S _ _ _ Hold), (insert_terminator _ _ _ _ Hl).
  rewrite lcd_print_sent by (right; rewrite length_app, Hl; cbn [length];
                             rewrite length_drop; lia).
  by rewrite before_zero_terminated.
Qed.

(** X4. On the plain channel the display receives, as characters, the bytes
    of the payload that come before its first zero byte, at most 16 of them,
    and nothing else: what an earlier write left in [message] is never sent,
    because the terminator is stored right after the payload. *)
Theorem plain_write_display (buffer : list Z) (len : nat) (st : driver) :
  minor st = 0 -> (len <= 30)%nat -> (len <= length buffer)%nat ->
  length (message st) = 32%nat -> character_mode st ->
  exists st' : driver,
    device_write buffer len st = Some (Z.of_nat len, st') /\
    received st st'
    = map (fun c => (Character, uchar c))
          (take 16 (before_zero (take len buffer))) /\
    character_mode st'.
Proof.
  intros Hm Hlen Hbuf Hmsg Hmode.
  eexists. split; [by apply device_write_plain|]. split.
  - unfold received.
    rewrite (performs_send_all _ (set_message _ st)), issued_advance_message.
    rewrite transfers_text. cbn [lines set_message]. rewrite Hmode.
    by destruct (take 16 (before_zero (take len buffer))).
  - apply mode_after_send_all. by left.
Qed.

Lemma plain_write_display_stale_message :
  exists st' : driver,
    device_write [79; 75] 2 (set_message (replicate 32 88) (opened 0))
    = Some (2, st') /\
    received (set_message (replicate 32 88) (opened 0)) st'
    = [(Character, 79); (Character, 75)].
Proof.
  destruct (plain_write_display [79; 75] 2
              (set_message (replicate 32 88) (opened 0)))
    as (st' & Hw & Hr & _);
    [reflexivity | lia | simpl; lia | reflexivity | reflexivity |].
  exists st'. split; [exact Hw | exact Hr].
Defined.

(** ** Memory safety of the loaded driver *)

Lemma device_write_defined (buffer : list Z) (len : nat) (st : driver) :
  (len <= length buffer)%nat -> length (message st) = 32%nat ->
  is_Some (device_write buffer len st).
Proof.
  intros Hbuf Hmsg. unfold device_write.
  destruct (30 <? len)%nat eqn:Elen; [by eexists|].
  apply Nat.ltb_ge in Elen.
  destruct (minor st =? 1); [by eexists|].
  destruct (minor st =? 2) eqn:E2.
  - destruct (Nat.eqb_spec len 0); [by eexists|].
    destruct (lookup_lt_is_Some_2 buffer 0) as [b0 H0]; [lia|]. rewrite H0.
    destruct (Nat.eqb_spec len 1).
    + by destruct (is_digit b0); eexists.
    + destruct (lookup_lt_is_Some_2 buffer 1) as [b1 H1]; [lia|]. rewrite H1.
      match goal with
      | |- is_Some (if ?c then _ else _) => by destruct c; eexists
      end.
  - destruct (Z.eqb_spec (minor st) 0) as [E0|]; [|by eexists].
    pose proof (device_write_plain buffer len st E0 Elen Hbuf Hmsg) as H.
    unfold device_write in H.
    destruct (Nat.ltb_spec 30 len); [lia|].
    rewrite E0 in *. simpl (0 =? 1) in H. simpl (0 =? 2) in H.
    simpl (0 =? 0) in H. cbv iota in H. rewrite H. by eexists.
Qed.

(** X5. Once the module is loaded, a write never reads or stores outside an
    array: on every channel, for every buffer that holds the [len] bytes it
    announces, the write has a result, the result is [len], and the driver is
    again in a state it can be written to. *)
Theorem device_write_never_faults (buffer : list Z) (len : nat) (st : driver) :
  reachable st -> (len <= length buffer)%nat ->
  exists st' : driver,
    device_write buffer len st = Some (Z.of_nat len, st') /\ reachable st'.
Proof.
  intros Hreach Hbuf. pose proof (reachable_idle st Hreach) as (_ & _ & Hmsg).
  destruct (device_write_defined buffer len st Hbuf Hmsg) as [[ret st'] H].
  pose proof (device_write_outcome _ _ _ _ _ H) as [-> _].
  exists st'. split; [exact H|].
  exact (reach_write buffer len st (Z.of_nat len) st' Hreach H).
Qed.

Lemma device_write_never_faults_full_line :
  exists st' : driver,
    device_write (replicate 30 65) 30 loaded = Some (30, st') /\ reachable st'.
Proof.
  apply (device_write_never_faults (replicate 30 65) 30 loaded).
  - apply (reach_init all_low default_line1 default_line2).
    vm_compute. reflexivity.
  - simpl. lia.
Defined.

(** ** The position channel on one byte *)

Lemma device_write_one_byte (buffer : list Z) (st : driver) (b0 : Z) :
  minor st = 2 -> buffer !! 0%nat = Some b0 ->
  device_write buffer 1 st
  = Some (1, if is_digit b0 then lcd_pos (digit b0) st else st).
Proof.
  intros Hm H0. unfold device_write. rewrite Hm, H0. cbn [Nat.ltb Nat.leb].
  simpl (2 =? 1). simpl (2 =? 2). cbn [Nat.eqb]. cbv iota.
  unfold digit. destruct (is_digit b0) eqn:E; [|done].
  apply is_digit_range in E. by rewrite uchar_small by lia.
Qed.

(** C2. The code departs from the claim at position 0.  [lcd_pos] has no
    range check of its own.  The branch of [device_write] for two or more bytes
    keeps the value 0 away from it, but the branch for one byte does not: a
    write of the single byte '0' on the position channel calls [lcd_pos 0],
    which is not a no-op, since it sends the command byte 0xAF with RS low.
    The two-byte writes '0','0' and '0',newline, which carry the same value,
    change nothing. *)
Theorem position_zero_not_ignored (st : driver) :
  minor st = 2 ->
  device_write [48] 1 st = Some (1, lcd_pos 0 st) /\
  received st (lcd_pos 0 st) = [(Command, 0xAF)] /\
  lcd_pos 0 st <> claimed_set_cursor 0 st /\
  device_write [48; 48] 2 st = Some (2, st) /\
  device_write [48; 10] 2 st = Some (2, st).
Proof.
  intros Hm.
  split; [by rewrite (device_write_one_byte [48] st 48)|].
  split; [by rewrite received_pos|].
  split; [apply lcd_pos_changes|].
  split.
  - by rewrite (device_write_position [48; 48] 2 st 48 48)
      by first [done | lia].
  - by rewrite (device_write_position [48; 10] 2 st 48 10)
      by first [done | lia].
Qed.

Lemma position_zero_not_ignored_opened :
  device_write [48] 1 (opened 2) = Some (1, lcd_pos 0 (opened 2)) /\
  received (opened 2) (lcd_pos 0 (opened 2)) = [(Command, 0xAF)].
Proof.
  destruct (position_zero_not_ignored (opened 2)) as (Hw & Hr & _);
    [reflexivity|].
  split; [exact Hw | exact Hr].
Defined.

(** X6. A single byte on the position channel is read as one decimal digit.
    The digits '1' to '9' move the cursor to the cells 1 to 9 of the first
    line (command bytes 0x80 to 0x88); a byte that is not a digit does
    nothing; the digit '0' is not filtered and reaches [lcd_pos 0], which
    sends the command byte 0xAF. *)
Theorem position_write_one_byte (buffer : list Z) (st : driver) (b0 : Z) :
  minor st = 2 -> buffer !! 0%nat = Some b0 ->
  exists st' : driver,
    device_write buffer 1 st = Some (1, st') /\
    received st st'
    = if is_digit b0
      then [(Command, if b0 =? 48 then 0xAF else 0x7F + digit b0)]
      else [].
Proof.
  intros Hm H0. eexists. split; [by apply device_write_one_byte|].
  unfold digit. destruct (is_digit b0) eqn:E.
  - rewrite received_pos. do 2 f_equal. apply is_digit_range in E.
    destruct (Z.eqb_spec b0 48) as [->|Hne]; [reflexivity|].
    rewrite pos_command_valid by lia.
    destruct (Z.geb_spec (b0 - 48 - 1) 16); [lia|].
    rewrite lor_0x80 by lia.
    destruct (Z.ltb_spec (b0 - 48 - 1) 128); lia.
  - unfold received. by rewrite issued_refl.
Qed.

Lemma position_write_one_byte_examples :
  (exists st' : driver,
      device_write [55] 1 (opened 2) = Some (1, st') /\
      received (opened 2) st' = [(Command, 0x86)]) /\
  (exists st' : driver,
      device_write [48] 1 (opened 2) = Some (1, st') /\
      received (opened 2) st' = [(Command, 0xAF)]).
Proof.
  split.
  - apply (position_write_one_byte [55] (opened 2) 55); reflexivity.
  - apply (position_write_one_byte [48] (opened 2) 48); reflexivity.
Defined.

(** X7. For a digit other than '0', writing the digit alone, the digit
    followed by a byte that is not a digit (such as the newline of [echo]),
    or the digit preceded by '0' leaves the driver in the same state: the
    three forms move the cursor to the same cell. *)
Theorem position_write_forms (st : driver) (d c : Z) (rest : list Z) (len : nat) :
  minor st = 2 -> is_digit d = true -> d <> 48 -> is_digit c = false ->
  (2 <= len <= 30)%nat ->
  device_write [d] 1 st = Some (1, lcd_pos (digit d) st) /\
  device_write (d :: c :: rest) len st = Some (Z.of_nat len, lcd_pos (digit d) st) /\
  device_write (48 :: d :: rest) len st = Some (Z.of_nat len, lcd_pos (digit d) st).
Proof.
  intros Hm Hd Hne Hc Hlen.
  pose proof (is_digit_range d Hd) as Hr.
  assert (Hv : 0 < digit d <= 9) by (unfold digit; rewrite Hd; lia).
  split; [|split].
  - rewrite (device_write_one_byte [d] st d) by done. by rewrite Hd.
  - rewrite (device_write_position _ _ _ d c) by done.
    unfold position_value. rewrite Hc.
    destruct (Z.ltb_spec 0 (digit d)), (Z.leb_spec (digit d) 32);
      try lia; done.
  - rewrite (device_write_position _ _ _ 48 d) by done.
    unfold position_value. rewrite Hd.
    change (digit 48) with 0. rewrite Z.mul_0_l, Z.add_0_l.
    destruct (Z.ltb_spec 0 (digit d)), (Z.leb_spec (digit d) 32);
      try lia; done.
Qed.

Lemma position_write_forms_five :
  device_write [53] 1 (opened 2) = Some (1, lcd_pos 5 (opened 2)) /\
  device_write [53; 10] 2 (opened 2) = Some (2, lcd_pos 5 (opened 2)) /\
  device_write [48; 53] 2 (opened 2) = Some (2, lcd_pos 5 (opened 2)).
Proof.
  apply (position_write_forms (opened 2) 53 10 [] 2);
    [reflexivity | reflexivity | discriminate | reflexivity | lia].
Defined.

(** ** The address map of [lcd_pos] *)

Lemma pos_command_high_bit (p : Z) : 0x80 <= pos_command p <= 0xFF.
Proof.
  unfold pos_command.
  set (a := if uchar (p - 1) >? 15 then uchar (uchar (p - 1) + 48)
            else uchar (p - 1)).
  assert (Ha : 0 <= a < 256)
    by (unfold a; destruct (uchar (p - 1) >? 15); apply uchar_range).
  rewrite lor_0x80 by done.
  destruct (Z.ltb_spec a 128); rewrite uchar_small; lia.
Qed.

Lemma pos_command_cell (p : Z) :
  1 <= p <= 32 ->
  pos_command p = 0x80 + 0x40 * ((p - 1) / 16) + (p - 1) mod 16.
Proof.
  intros Hp. rewrite pos_command_valid by done.
  destruct (Z.geb_spec (p - 1) 16).
  - rewrite lor_0x80 by lia.
    destruct (Z.ltb_spec (p - 1 + 48) 128); [|lia].
    Z.div_mod_to_equations. lia.
  - rewrite lor_0x80 by lia.
    destruct (Z.ltb_spec (p - 1) 128); [|lia].
    Z.div_mod_to_equations. lia.
Qed.

(** X8. Whatever its argument, [lcd_pos] sends a byte between 0x80 and 0xFF,
    that is a set-address command and no other controller command.  For a
    position p in 1..32 the address is 0x40 * line + column, with line
    [(p-1) / 16] and column [(p-1) mod 16], and the position can be read back
    from the command byte: distinct positions give distinct commands. *)
Theorem lcd_pos_address_map :
  (forall (p : Z) (st : driver),
      exists c : Z,
        received st (lcd_pos p st) = [(Command, c)] /\ 0x80 <= c <= 0xFF) /\
  (forall (p : Z) (st : driver),
      1 <= p <= 32 ->
      received st (lcd_pos p st)
      = [(Command, 0x80 + 0x40 * ((p - 1) / 16) + (p - 1) mod 16)] /\
      ddram_position (pos_command p) = p) /\
  (forall (p q : Z) (st : driver),
      1 <= p <= 32 -> 1 <= q <= 32 ->
      received st (lcd_pos p st) = received st (lcd_pos q st) -> p = q).
Proof.
  assert (Hback : forall p, 1 <= p <= 32 -> ddram_position (pos_command p) = p).
  { intros p Hp. rewrite pos_command_cell by done. unfold ddram_position.
    cbv zeta.
    destruct (Z.ltb_spec (128 + 64 * ((p - 1) / 16) + (p - 1) mod 16 - 128) 64);
      Z.div_mod_to_equations; lia. }
  split; [|split].
  - intros p st. exists (pos_command p). split; [apply received_pos|].
    apply pos_command_high_bit.
  - intros p st Hp. rewrite received_pos, <- pos_command_cell by done.
    split; [done | by apply Hback].
  - intros p q st Hp Hq. rewrite !received_pos. intros [= E].
    rewrite <- (Hback p Hp), <- (Hback q Hq). by rewrite E.
Qed.

Lemma lcd_pos_address_map_cell_23 :
  received loaded (lcd_pos 23 loaded) = [(Command, 0xC6)] /\
  ddram_position (pos_command 23) = 23.
Proof.
  destruct lcd_pos_address_map as (_ & Hcell & _).
  apply (Hcell 23 loaded). lia.
Defined.

(** ** A command followed by a text *)

Lemma transfers_pair (m1 m2 : mode) (hi lo : Z) (rest : list (mode * Z)) :
  transfers ((m1, hi) :: (m2, lo) :: rest) = (m1, 16 * hi + lo) :: transfers rest.
Proof. reflexivity. Qed.

Lemma received_command_text (byte : Z) (tail : list event) (bytes : list Z)
      (l : gpio_lines) :
  0 <= byte < 256 ->
  replay tail (replay (GpioSet RS_pin 0 :: byte_trace byte) l)
  = replay (GpioSet RS_pin 0 :: byte_trace byte) l ->
  latched (replay (GpioSet RS_pin 0 :: byte_trace byte) l) tail = [] ->
  transfers (latched l ((GpioSet RS_pin 0 :: byte_trace byte) ++ tail
                        ++ text_trace bytes))
  = (Command, byte) :: map (fun c => (Character, uchar c)) bytes.
Proof.
  intros Hb Hr Hl.
  rewrite latched_app, latched_command_byte.
  cbn [app]. rewrite transfers_pair, nibbles_join, uchar_small by done.
  f_equal. rewrite latched_app, Hl, Hr. cbn [app].
  rewrite transfers_text, replay_command_byte.
  by destruct bytes.
Qed.

(** X9. [lcd_cls] or [lcd_pos] followed by [lcd_print] gives the controller
    one command byte and then the text as characters: the print needs no
    care about the mode the command left. *)
Theorem command_then_print (text : list Z) (st : driver) :
  0 ∈ text \/ (16 <= length text)%nat ->
  let sent := take 16 (before_zero text) in
  (exists st' : driver,
      lcd_print text (lcd_cls st) = Some st' /\
      received st st'
      = (Command, 0x01) :: map (fun c => (Character, uchar c)) sent) /\
  (forall p : Z,
      exists st' : driver,
        lcd_print text (lcd_pos p st) = Some st' /\
        received st st'
        = (Command, pos_command p) :: map (fun c => (Character, uchar c)) sent).
Proof.
  intros H sent. split.
  - eexists. split; [by apply lcd_print_sent|]. fold sent.
    rewrite (performs_send_all sent), (performs_cls_trace st), <- advance_app.
    unfold received. rewrite issued_advance. unfold cls_trace.
    change ((GpioSet RS_pin 0 :: byte_trace 1 ++ [Mdelay 2]) ++ text_trace sent)
      with ((GpioSet RS_pin 0 :: byte_trace 1) ++ [Mdelay 2] ++ text_trace sent).
    apply received_command_text; [lia | done | by rewrite latched_quiet].
  - intros p. eexists. split; [by apply lcd_print_sent|]. fold sent.
    rewrite (performs_send_all sent), (performs_pos_trace p st), <- advance_app.
    unfold received. rewrite issued_advance. unfold pos_trace.
    change ((GpioSet RS_pin 0 :: byte_trace (pos_command p)) ++ text_trace sent)
      with ((GpioSet RS_pin 0 :: byte_trace (pos_command p)) ++ [] ++ text_trace sent).
    apply received_command_text; [apply pos_command_range | done | done].
Qed.

Lemma command_then_print_second_line :
  exists st' : driver,
    lcd_print [79; 75; 0] (lcd_pos 17 loaded) = Some st' /\
    received loaded st' = [(Command, 0xC0); (Character, 79); (Character, 75)].
Proof.
  destruct (command_then_print [79; 75; 0] loaded) as [_ Hpos].
  - left. apply list_elem_of_In. simpl. tauto.
  - apply (Hpos 17).
Defined.

(** ** What the controller sees of the initialisation *)



Lemma mode_replay_text (bytes : list Z) (l : gpio_lines) :
  mode_of l = Character -> mode_of (replay (text_trace bytes) l) = Character.
Proof.
  revert l. induction bytes as [|c cs IH]; intros l H; [done|].
  change (text_trace (c :: cs)) with (byte_trace c ++ text_trace cs).
  rewrite replay_app. apply IH. by rewrite replay_byte.
Qed.

Lemma performs_init_display :
  performs
    (mdelay 15 >> lcd_nibble 0x03 >> mdelay 5 >> lcd_nibble 0x03 >>
     udelay 100 >> lcd_nibble 0x03 >> udelay 40 >> lcd_nibble 0x02 >>
     udelay 40 >> lcd_nibble 0x02 >> lcd_nibble 0x08 >> udelay 40 >>
     lcd_nibble 0x00 >> lcd_nibble 0x0C >> udelay 40 >>
     lcd_nibble 0x00 >> lcd_nibble 0x06 >> udelay 40 >> lcd_cls)
    init_trace.
Proof.
  unfold init_trace.
  repeat (apply performs_then;
          [first [apply performs_mdelay | apply performs_udelay
                 | apply performs_nibble]|]).
  apply performs_cls_trace.
Qed.






(** ** Opening and releasing the device *)

(** X11. The device has one opener at a time.  Opening a free device
    succeeds and records the minor number; a second open is refused with
    [-EBUSY] and changes nothing, so the holder keeps its channel; after a
    release the next open succeeds and selects its own channel.  Neither
    operation touches the lines, the log of calls or [message]. *)
Theorem exclusive_open (st : driver) (m m' : Z) :
  Device_Open st = 0 ->
  let st1 := snd (device_open m st) in
  let st2 := snd (device_release st1) in
  fst (device_open m st) = 0 /\ minor st1 = m /\
  device_open m' st1 = (- EBUSY, st1) /\
  fst (device_open m' st2) = 0 /\ minor (snd (device_open m' st2)) = m' /\
  lines st2 = lines st /\ log st2 = log st /\ message st2 = message st.
Proof.
  intros H. unfold device_open, device_release. rewrite H. cbn.
  by repeat split.
Qed.

Lemma exclusive_open_loaded :
  device_open 1 (opened 2) = (- EBUSY, opened 2) /\
  minor (snd (device_open 1 (snd (device_release (opened 2))))) = 1.
Proof.
  destruct (exclusive_open loaded 2 1) as (_ & _ & Hbusy & _ & Hnext & _);
    [reflexivity|].
  split; [exact Hbusy | exact Hnext].
Defined.

(** ** Bits that do not count *)

Lemma bit_shiftr4 (n i : Z) : 0 <= i -> bit (Z.shiftr n 4) i = bit n (i + 4).
Proof. intros Hi. unfold bit. by rewrite Z.shiftr_spec by lia. Qed.

Lemma byte_trace_uchar (byte : Z) : byte_trace (uchar byte) = byte_trace byte.
Proof.
  unfold byte_trace. f_equal; [|by rewrite nibble_trace_uchar].
  unfold nibble_trace. rewrite !bit_shiftr4 by lia.
  by rewrite !bit_uchar by lia.
Qed.

(** X12. [lcd_nibble] looks at the four low bits of its argument only, and
    [lcd_byte] at the eight low bits only: arguments equal modulo 16, or
    modulo 256, give the same calls and the same state. *)
Theorem low_bits_only :
  (forall (n : Z) (st : driver), lcd_nibble n st = lcd_nibble (n mod 16) st) /\
  (forall (byte : Z) (st : driver), lcd_byte byte st = lcd_byte (byte mod 256) st).
Proof.
  split.
  - intros n st.
    by rewrite (performs_nibble n), (performs_nibble (n mod 16)),
      nibble_trace_mod16.
  - intros byte st.
    rewrite (performs_byte byte), (performs_byte (byte mod 256)).
    by rewrite <- (byte_trace_uchar byte).
Qed.

(** ** Invariant of the loaded driver *)

Lemma statics_init (l : gpio_lines) (line1 line2 : list Z) (st : driver) (ret : Z) :
  inicializa 0 line1 line2 (static_init l) = Some (ret, st) ->
  Device_Open st = 0 /\ minor st = 0.
Proof.
  unfold inicializa. simpl c_true. cbv iota.
  unfold then_ at 1. rewrite (performs_init_display _).
  destruct (lcd_print line1 _) as [st2|] eqn:E2; [|done].
  apply lcd_print_loop_sent in E2.
  destruct (lcd_print line2 _) as [st3|] eqn:E3; [|done].
  apply lcd_print_loop_sent in E3. intros [= <- <-].
  rewrite E3, (performs_send_all _ (lcd_pos 17 st2)), (performs_pos_trace 17).
  by rewrite E2, (performs_send_all _ (advance init_trace _)).
Qed.

(** X13. Between two file operations of the loaded driver the EN line is
    low, so that the next nibble starts with a rising edge; [message] still
    has its 32 bytes; and [Device_Open] is 0 or 1. *)
Theorem reachable_invariant (st : driver) :
  reachable st ->
  en (lines st) = false /\ length (message st) = 32%nat /\
  (Device_Open st = 0 \/ Device_Open st = 1).
Proof.
  intros H. pose proof (reachable_idle st H) as (_ & He & Hm).
  split; [done|]. split; [done|]. clear He Hm.
  induction H as [l line1 line2 st H|m st _ IH|st _ IH|st _ IH
                 |buffer len st ret st' _ IH H].
  - apply statics_init in H as [-> _]. by left.
  - unfold device_open.
    destruct (c_true (Device_Open st)); [done | by right].
  - by left.
  - done.
  - apply device_write_outcome in H as (_ & evs & m & -> & _). done.
Qed.

Lemma reachable_invariant_after_write :
  exists st' : driver,
    device_write [49; 55] 2 (opened 2) = Some (2, st') /\
    en (lines st') = false /\ Device_Open st' = 1.
Proof.
  exists (lcd_pos 17 (opened 2)). split; [reflexivity|].
  destruct (reachable_invariant (lcd_pos 17 (opened 2))) as (He & _ & _).
  - apply (reach_write [49; 55] 2 (opened 2) 2); [|reflexivity].
    apply (reach_open 2 loaded).
    apply (reach_init all_low default_line1 default_line2).
    vm_compute. reflexivity.
  - split; [exact He | reflexivity].
Defined.

(** ** When the print loop leaves its array *)

Lemma lcd_print_loop_overrun (n x : nat) (buffer : list Z) (st : driver) :
  0 ∉ drop x buffer -> (length (drop x buffer) < n)%nat ->
  lcd_print_loop n x buffer st = None.
Proof.
  revert x st. induction n as [|n IH]; intros x st Hz Hl; [lia|].
  cbn [lcd_print_loop]. destruct (buffer !! x) as [c|] eqn:E; [|done].
  rewrite (drop_S _ _ _ E) in Hz, Hl.
  destruct (Z.eqb_spec c 0) as [->|Hc].
  - exfalso. apply Hz. by left.
  - apply IH.
    + intros Hin. apply Hz. by right.
    + cbn [length] in Hl. lia.
Qed.

(** X14. [lcd_print] stays inside the array it is given exactly when the
    array holds a zero byte or at least 16 bytes; on a shorter array without
    a zero byte the loop reads past its end. *)
Theorem lcd_print_in_bounds (text : list Z) (st : driver) :
  is_Some (lcd_print text st) <-> 0 ∈ text \/ (16 <= length text)%nat.
Proof.
  split.
  - intros [st' H].
    destruct (decide (0 ∈ text)) as [Hz|Hz]; [by left|]. right.
    destruct (Nat.le_gt_cases 16 (length text)) as [Hl|Hl]; [done|].
    unfold lcd_print in H.
    rewrite (lcd_print_loop_overrun 16 0 text st) in H; done.
  - intros H. by apply lcd_print_loop_defined.
Qed.

Lemma lcd_print_in_bounds_examples :
  is_Some (lcd_print [72; 0] loaded) /\ ~ is_Some (lcd_print [72; 73] loaded).
Proof.
  split.
  - apply (lcd_print_in_bounds [72; 0] loaded). left.
    apply list_elem_of_In. simpl. tauto.
  - intros H. apply (lcd_print_in_bounds [72; 73] loaded) in H as [H|H].
    + apply list_elem_of_In in H. simpl in H. lia.
    + simpl in H. lia.
Defined.
